(** * Accessibility conversion tool: the PDF layout helpers and the page rewriter

    A shallow embedding of [accessibility-tool.py].  Coordinates, sizes and
    thresholds are Python numbers; they are modelled as exact rationals ([Q]),
    so [/] is exact division, [math.floor] and [math.ceil] are [Qfloor] and
    [Qceiling], and numeric equality is [Qeq].  Where the rounding of the
    program's binary64 arithmetic decides a property, the function is given a
    second time over binary64 numbers, in [Binary64].  Python dictionaries with a
    fixed set of keys are records whose fields are optional where the source
    reads them with [.get] or tests their presence.  Exceptions are values of
    [result]; drawing, printing and saving are recorded in an ordered trace. *)

From Stdlib Require Import QArith Qround Qabs ZArith List Bool String Ascii.
From Stdlib Require Import Permutation Sorted Lia Lqa.
From Stdlib Require PrimFloat SpecFloat FloatOps.
Import ListNotations.

Open Scope Q_scope.

(** ** Exceptions *)

Inductive exn : Type :=
| KeyError (key : string)
| TypeError (msg : string)
| ZeroDivisionError
| ValueError (msg : string)
| OverflowError (msg : string)
| OtherError (msg : string).

Inductive result (A : Type) : Type :=
| Ok (a : A)
| Raise (e : exn).

Arguments Ok {A} a.
Arguments Raise {A} e.

Definition rbind {A B} (m : result A) (f : A -> result B) : result B :=
  match m with
  | Ok a => f a
  | Raise e => Raise e
  end.

Notation "x <- m ;; k" := (rbind m (fun x => k))
  (at level 61, m at next level, right associativity).

(** ** Numbers *)

Definition Qlt_bool (a b : Q) : bool := negb (Qle_bool b a).

(** Python's [max(a, b)] and [min(a, b)] keep the first argument on a tie. *)
Definition py_max (a b : Q) : Q := if Qlt_bool a b then b else a.
Definition py_min (a b : Q) : Q := if Qlt_bool b a then b else a.

(** [math.floor(x / g) * g] and [math.ceil(x / g) * g]. *)
Definition floor_to_grid (x g : Q) : Q := inject_Z (Qfloor (x / g)) * g.
Definition ceil_to_grid (x g : Q) : Q := inject_Z (Qceiling (x / g)) * g.

(** ** Rectangles ([fitz.Rect]) *)

Record Rect : Type := mkRect { x0 : Q; y0 : Q; x1 : Q; y1 : Q }.

(** [Rect.width] and [Rect.height] of PyMuPDF: never negative. *)
Definition width (r : Rect) : Q := py_max 0 (x1 r - x0 r).
Definition height (r : Rect) : Q := py_max 0 (y1 r - y0 r).

Definition rect_eq (r s : Rect) : Prop :=
  x0 r == x0 s /\ y0 r == y0 s /\ x1 r == x1 s /\ y1 r == y1 s.

Definition valid_rect (r : Rect) : Prop := x0 r <= x1 r /\ y0 r <= y1 r.

(** Every edge of [r] lies within the page's extent on its axis. *)
Definition contained_in (r page : Rect) : Prop :=
  (x0 page <= x0 r <= x1 page) /\ (x0 page <= x1 r <= x1 page)
  /\ (y0 page <= y0 r <= y1 page) /\ (y0 page <= y1 r <= y1 page).

(** ** Helpers *)

Definition snap_rect_expand_and_clamp (rect page_rect : Rect) (grid_size : Q)
  : result Rect :=
  if Qeq_bool grid_size 0 then Raise ZeroDivisionError
  else
    let snapped :=
      mkRect (floor_to_grid (x0 rect) grid_size)
             (floor_to_grid (y0 rect) grid_size)
             (ceil_to_grid (x1 rect) grid_size)
             (ceil_to_grid (y1 rect) grid_size) in
    (* Clamp to the page boundaries *)
    let clamped :=
      mkRect (py_max (x0 snapped) (x0 page_rect))
             (py_max (y0 snapped) (y0 page_rect))
             (py_min (x1 snapped) (x1 page_rect))
             (py_min (y1 snapped) (y1 page_rect)) in
    Ok clamped.

(** ** Python string operations used on paths *)

Open Scope string_scope.

Definition lower_ascii (c : ascii) : ascii :=
  let n := nat_of_ascii c in
  if (Nat.leb 65 n && Nat.leb n 90)%bool then ascii_of_nat (n + 32) else c.

(** [str.lower] on ASCII text. *)
Fixpoint lower (s : string) : string :=
  match s with
  | EmptyString => EmptyString
  | String c s' => String (lower_ascii c) (lower s')
  end.

(** [str.rfind] for a one-character needle: the last index, or -1. *)
Fixpoint rfind_from (c : ascii) (s : string) (i last : Z) : Z :=
  match s with
  | EmptyString => last
  | String a s' => rfind_from c s' (i + 1)%Z (if Ascii.eqb a c then i else last)
  end.

Definition rfind (c : ascii) (s : string) : Z := rfind_from c s 0%Z (-1)%Z.

(** The [while] loop of [genericpath._splitext]: is there a character other
    than the dot among the [n] characters from [filenameIndex] on? *)
Fixpoint has_non_dot (p : string) (filenameIndex n : nat) : bool :=
  match n with
  | O => false
  | S k =>
    match String.get filenameIndex p with
    | Some c => if Ascii.eqb c "."%char then has_non_dot p (S filenameIndex) k
                else true
    | None => true
    end
  end.

(** [os.path.splitext] (posixpath: separator [/], no alternative separator). *)
Definition splitext (p : string) : string * string :=
  let sepIndex := rfind "/"%char p in
  let dotIndex := rfind "."%char p in
  if (sepIndex <? dotIndex)%Z
     && has_non_dot p (Z.to_nat (sepIndex + 1)) (Z.to_nat (dotIndex - (sepIndex + 1)))
  then (substring 0 (Z.to_nat dotIndex) p,
        substring (Z.to_nat dotIndex) (String.length p - Z.to_nat dotIndex) p)
  else (p, EmptyString).

(** [str.replace(old, new)]: every non-overlapping occurrence, left to right.
    [skip] counts the characters of a matched occurrence still to be dropped. *)
Fixpoint replace_go (old new : string) (skip : nat) (s : string) : string :=
  match s with
  | EmptyString => EmptyString
  | String c s' =>
    match skip with
    | S k => replace_go old new k s'
    | O =>
      if prefix old s then new ++ replace_go old new (String.length old - 1) s'
      else String c (replace_go old new 0 s')
    end
  end.

Fixpoint interleave (new s : string) : string :=
  match s with
  | EmptyString => new
  | String c s' => new ++ String c (interleave new s')
  end.

Definition replace (old new s : string) : string :=
  match old with
  | EmptyString => interleave new s
  | _ => replace_go old new 0 s
  end.

(** [str.strip()].  A string of the model is the UTF-8 encoding of the Python
    string; these are the encodings of the characters for which
    [str.isspace] holds: U+0009-000D, U+001C-0020, U+0085, U+00A0, U+1680,
    U+2000-200A, U+2028, U+2029, U+202F, U+205F and U+3000. *)
Definition white_space : list (list nat) :=
  [[9]; [10]; [11]; [12]; [13]; [28]; [29]; [30]; [31]; [32];
   [194; 133]; [194; 160]; [225; 154; 128];
   [226; 128; 128]; [226; 128; 129]; [226; 128; 130]; [226; 128; 131];
   [226; 128; 132]; [226; 128; 133]; [226; 128; 134]; [226; 128; 135];
   [226; 128; 136]; [226; 128; 137]; [226; 128; 138];
   [226; 128; 168]; [226; 128; 169]; [226; 128; 175]; [226; 129; 159];
   [227; 128; 128]]%nat.

(** The rest of [l] after the bytes [bytes], when [l] starts with them. *)
Fixpoint drop_prefix (bytes : list nat) (l : list ascii) : option (list ascii) :=
  match bytes, l with
  | [], _ => Some l
  | b :: bytes', c :: l' =>
    if Nat.eqb (nat_of_ascii c) b then drop_prefix bytes' l' else None
  | _ :: _, [] => None
  end.

Fixpoint drop_one (seqs : list (list nat)) (l : list ascii)
  : option (list ascii) :=
  match seqs with
  | [] => None
  | bytes :: seqs' =>
    match drop_prefix bytes l with
    | Some rest => Some rest
    | None => drop_one seqs' l
    end
  end.

(** Drop leading members of [seqs]; [fuel] bounds the number dropped. *)
Fixpoint drop_leading (seqs : list (list nat)) (fuel : nat) (l : list ascii)
  : list ascii :=
  match fuel with
  | O => l
  | S fuel' =>
    match drop_one seqs l with
    | Some rest => drop_leading seqs fuel' rest
    | None => l
    end
  end.

Definition lstrip (l : list ascii) : list ascii :=
  drop_leading white_space (List.length l) l.

(** Trailing white space is leading white space of the reversed string, with
    every encoding reversed. *)
Definition rstrip (l : list ascii) : list ascii :=
  rev (drop_leading (map (@rev nat) white_space) (List.length l) (rev l)).

Definition strip (s : string) : string :=
  string_of_list_ascii (rstrip (lstrip (list_ascii_of_string s))).

Definition create_output_filename (input_path : string) : string :=
  let '(base, ext) := splitext input_path in
  base ++ "-Accessible-Copy" ++ ext.

Close Scope string_scope.

(** ** The page structure returned by [page.get_text("dict")] *)

Record Span : Type := mkSpan {
  text : option string;
  origin : option (Q * Q);
  size : option Q;
  span_bbox : option Rect
}.

Record Line : Type := mkLine { spans : option (list Span) }.

(** A block dictionary: [type] is 0 for text and 1 for an image. *)
Record Block : Type := mkBlock {
  btype : option Z;
  bbox : option Rect;
  lines : option (list Line)
}.

(** [d.get(key, default)]. *)
Definition get_or {A} (field : option A) (default : A) : A :=
  match field with
  | Some a => a
  | None => default
  end.

(** [d[key]]. *)
Definition item {A} (field : option A) (key : string) : result A :=
  match field with
  | Some a => Ok a
  | None => Raise (KeyError key)
  end.

(** [block.get("type") == n]. *)
Definition type_is (b : Block) (n : Z) : bool :=
  match btype b with
  | Some t => Z.eqb t n
  | None => false
  end.

(** Truth value of a dictionary: false only when it has no key. *)
Definition truthy (b : Block) : bool :=
  match btype b, bbox b, lines b with
  | None, None, None => false
  | _, _, _ => true
  end.

(** ** [sorted(..., key=...)] *)

Fixpoint mapM {A B} (f : A -> result B) (l : list A) : result (list B) :=
  match l with
  | [] => Ok []
  | a :: t => b <- f a ;; bs <- mapM f t ;; Ok (b :: bs)
  end.

Fixpoint foldM {A S} (f : S -> A -> result S) (s : S) (l : list A) : result S :=
  match l with
  | [] => Ok s
  | a :: t => s' <- f s a ;; foldM f s' t
  end.

(** Insertion of a decorated element in front of a list of later elements:
    it passes only the keys strictly below its own, so equal keys keep their
    order, as in Python's stable sort. *)
Fixpoint insert_keyed {A} (x : Q * A) (l : list (Q * A)) : list (Q * A) :=
  match l with
  | [] => [x]
  | y :: t => if Qlt_bool (fst y) (fst x) then y :: insert_keyed x t
              else x :: y :: t
  end.

Definition sort_keyed {A} (l : list (Q * A)) : list (Q * A) :=
  fold_right insert_keyed [] l.

Definition keys_ascending {A} (l : list (Q * A)) : Prop :=
  StronglySorted (fun a b => fst a <= fst b) l.

(** All keys are computed first (a failing key aborts the sort), then the
    decorated list is sorted. *)
Definition py_sorted {A} (key : A -> result Q) (l : list A) : result (list A) :=
  keyed <- mapM (fun a => k <- key a ;; Ok (k, a)) l ;;
  Ok (map snd (sort_keyed keyed)).

(** ** merge_text_blocks *)

(** [lambda b: b["bbox"][1]] *)
Definition top_key (b : Block) : result Q :=
  r <- item (bbox b) "bbox" ;; Ok (y0 r).

Definition sorted_text_blocks (blocks : list Block) : result (list Block) :=
  py_sorted top_key (filter (fun b => type_is b 0) blocks).

(** One iteration of the loop; the state is [(merged, current_block)].
    The source updates the dictionary bound to [current_block] in place (its
    ["bbox"] is reassigned, its ["lines"] list extended); the record built in
    the merge branch is that dictionary after the update.  The blocks of a
    page are distinct dictionaries with distinct line lists, so the update
    reaches no other block of the input. *)
Definition merge_step (vertical_threshold : Q)
  (st : list Block * option Block) (block : Block)
  : result (list Block * option Block) :=
  let '(merged, current_block) := st in
  rect <- item (bbox block) "bbox" ;;
  match current_block with
  | None => Ok (merged, Some block)
  | Some cur =>
    current_rect <- item (bbox cur) "bbox" ;;
    (* Check vertical proximity (block is right below the current) *)
    let vertical_gap := y0 rect - y1 current_rect in
    if Qle_bool vertical_gap vertical_threshold
       && Qlt_bool (Qabs (x0 rect - x0 current_rect)) 5
    then
      (* Merge: Expand the bbox and combine lines *)
      let new_bbox :=
        mkRect (py_min (x0 current_rect) (x0 rect))
               (py_min (y0 current_rect) (y0 rect))
               (py_max (x1 current_rect) (x1 rect))
               (py_max (y1 current_rect) (y1 rect)) in
      cur_lines <- item (lines cur) "lines" ;;
      Ok (merged,
          Some (mkBlock (btype cur) (Some new_bbox)
                        (Some (cur_lines ++ get_or (lines block) []))))
    else Ok (merged ++ [cur], Some block)
  end.

Definition merge_text_blocks (blocks : list Block) (vertical_threshold : Q)
  : result (list Block) :=
  blocks <- sorted_text_blocks blocks ;;
  st <- foldM (merge_step vertical_threshold) ([], None) blocks ;;
  let '(merged, current_block) := st in
  match current_block with
  | Some cur => if truthy cur then Ok (merged ++ [cur]) else Ok merged
  | None => Ok merged
  end.

(** ** extract_images_with_bboxes *)

(** A page: its rectangle, the xrefs of [page.get_images(full=True)] (the
    first component of each tuple), the outcome of [page.get_image_bbox], the
    blocks of [page.get_text("dict")], and the outcome of the guarded
    [fitz.Pixmap] / [page.insert_image] pair ([Some msg] when it raises). *)
Record Page : Type := mkPage {
  page_rect : Rect;
  get_images : list Z;
  get_image_bbox : Z -> result Rect;
  text_dict_blocks : list Block;
  insert_image_error : Rect -> Z -> option string
}.

Record ImageRef : Type := mkImageRef { xref : Z; image_bbox : Rect }.

(** The exclusion test of lines 85-100. *)
Definition is_background (bbox page_rect : Rect) : bool :=
  let near_full_width := Qlt_bool (width page_rect * (98 # 100)) (width bbox) in
  let near_full_height := Qlt_bool (height page_rect * (98 # 100)) (height bbox) in
  let aligned_left := Qlt_bool (Qabs (x0 bbox - x0 page_rect)) 1 in
  let aligned_right := Qlt_bool (Qabs (x1 bbox - x1 page_rect)) 1 in
  let aligned_top := Qlt_bool (Qabs (y0 bbox - y0 page_rect)) 1 in
  let aligned_bottom := Qlt_bool (Qabs (y1 bbox - y1 page_rect)) 1 in
  (near_full_width && (aligned_top || aligned_bottom))
  || (near_full_height && (aligned_left || aligned_right))
  || (near_full_width && near_full_height && aligned_left && aligned_top).

(** The body of the loop for one image: the images it appends. *)
Definition extract_one (page : Page) (xref : Z) : list ImageRef :=
  match get_image_bbox page xref with
  | Ok bbox =>
    (* Minimum size filter *)
    if Qlt_bool (width bbox) 10 || Qlt_bool (height bbox) 10 then []
    else if is_background bbox (page_rect page) then []
    else [mkImageRef xref bbox]
  | Raise _ => []
  end.

Definition extract_images_with_bboxes (page : Page) : list ImageRef :=
  fold_left (fun images xref => images ++ extract_one page xref)
            (get_images page) [].

(** ** Effects of the page rewriter *)

Definition Color : Type := (Q * Q * Q)%type.

Inductive Effect : Type :=
| DrawRect (page_index : nat) (r : Rect) (color fill : option Color)
           (line_width : Q) (overlay : bool)
| InsertImage (page_index : nat) (r : Rect) (xref : Z)
| InsertText (page_index : nat) (point : Q * Q) (text : string)
             (fontname : string) (fontsize : Q) (color : Color)
| Printed (s : string)           (* print(s) *)
| Save (path : string)           (* doc.save(path) is called *)
| ErrorDialog (title msg : string).

(** A computation: the effects performed so far, then a value or the
    exception that stopped it. *)
Definition M (A : Type) : Type := (list Effect * result A)%type.

Definition mret {A} (a : A) : M A := ([], Ok a).

Definition mbind {A B} (m : M A) (f : A -> M B) : M B :=
  match m with
  | (t, Ok a) => let '(t', r) := f a in (t ++ t', r)
  | (t, Raise e) => (t, Raise e)
  end.

Definition emit (e : Effect) : M unit := ([e], Ok tt).

Definition lift {A} (r : result A) : M A := ([], r).

Notation "x <~ m ;; k" := (mbind m (fun x => k))
  (at level 61, m at next level, right associativity).
Notation "m ;;; k" := (mbind m (fun _ => k))
  (at level 61, right associativity).

Fixpoint for_each {A} (l : list A) (body : A -> M unit) : M unit :=
  match l with
  | [] => mret tt
  | a :: t => body a ;;; for_each t body
  end.

Definition trace {A} (m : M A) : list Effect := fst m.
Definition outcome {A} (m : M A) : result A := snd m.

Definition white : Color := (1, 1, 1).
Definition black : Color := (0, 0, 0).

(** ** process_pdf *)

(** An opened PDF: its pages, and the exception [doc.save(path)] raises for a
    path other than the document's own (none when the file gets written). *)
Record Doc : Type := mkDoc {
  pages : list Page;
  save_error : string -> option exn
}.

(** [doc.save(path)] for the document opened from [name]: PyMuPDF refuses a
    plain save onto the file the document was opened from. *)
Definition save_outcome (doc : Doc) (name path : string) : option exn :=
  if String.eqb path name
  then Some (ValueError "save to original must be incremental")
  else save_error doc path.

(** The call is recorded first; then it returns or raises. *)
Definition save_with (error : option exn) (path : string) : M unit :=
  emit (Save path) ;;;
  match error with
  | Some e => lift (Raise e)
  | None => mret tt
  end.

Definition margin : Q := 3.

(** The inner loop of step 3: the first image that can be inserted is
    inserted and ends the loop; a failure is printed and the next is tried. *)
Fixpoint insert_first_image (i : nat) (page : Page) (r : Rect)
  (images : list Z) : M unit :=
  match images with
  | [] => mret tt
  | xref :: rest =>
    match insert_image_error page r xref with
    | None => emit (InsertImage i r xref)
    | Some e =>
      emit (Printed ("Error inserting image: " ++ e)) ;;;
      insert_first_image i page r rest
    end
  end.

Definition image_layer (i : nat) (page : Page) (blocks : list Block)
  (images : list Z) : M unit :=
  for_each blocks (fun block =>
    match type_is block 1, bbox block with
    | true, Some r =>
      (* Draw black border around images *)
      emit (DrawRect i r (Some (99 # 100, 99 # 100, 99 # 100)) None 1 true) ;;;
      insert_first_image i page r images
    | _, _ => mret tt
    end).

Definition redraw_span (i : nat) (span : Span) : M unit :=
  let text := strip (get_or (text span) EmptyString) in
  match text with
  | EmptyString => mret tt
  | _ =>
    xy <~ lift (match origin span with
                | Some p => Ok p
                | None =>
                  Raise (TypeError "cannot unpack non-iterable NoneType object")
                end) ;;
    let '(x, y) := xy in
    let x := x + margin in
    let y := y + margin in
    let font_size := get_or (size span) 10 in
    sb <~ lift (item (span_bbox span) "bbox") ;;
    (* Draw white background behind text *)
    let bg_rect :=
      mkRect (x0 sb + margin) (y0 sb + margin) (x1 sb + margin) (y1 sb + margin) in
    emit (DrawRect i bg_rect None (Some white) 1 true) ;;;
    (* Draw black text on top *)
    emit (InsertText i (x, y) text "helv" font_size black)
  end.

Definition text_layer (i : nat) (blocks : list Block) : M unit :=
  for_each blocks (fun block =>
    match type_is block 0, bbox block with
    | true, Some r =>
      (* Skip very small blocks (e.g., artifacts or icons) *)
      if Qlt_bool (height r) 5 || Qlt_bool (width r) 10 then mret tt
      else
        (* Inset the rectangle manually to avoid touching text *)
        let inset_r :=
          mkRect (x0 r + margin) (y0 r + margin) (x1 r - margin) (y1 r - margin) in
        (* Draw light grey outline before text *)
        emit (DrawRect i inset_r (Some (9 # 10, 9 # 10, 9 # 10)) None (1 # 2) true) ;;;
        for_each (get_or (lines block) []) (fun line =>
          for_each (get_or (spans line) []) (redraw_span i))
    | _, _ => mret tt
    end).

Definition rewrite_page (i : nat) (page : Page) : M unit :=
  let rect := page_rect page in
  (* Step 1: Erase existing content by filling white background *)
  emit (DrawRect i rect (Some white) (Some white) 1 true) ;;;
  (* Step 2: Extract layout structure *)
  let blocks := text_dict_blocks page in
  let images := get_images page in
  (* Step 3: Insert images first (bottom layer) *)
  image_layer i page blocks images ;;;
  (* Step 4: Redraw text blocks and outlines *)
  text_layer i blocks.

Fixpoint rewrite_pages (i : nat) (ps : list Page) : M unit :=
  match ps with
  | [] => mret tt
  | page :: rest => rewrite_page i page ;;; rewrite_pages (S i) rest
  end.

(** [fitz_open] is the outcome of [fitz.open] on a path.  [grid_size] and
    [merge_threshold] are parameters of the source function. *)
Definition process_pdf (fitz_open : string -> result Doc)
  (input_path : string) (grid_size merge_threshold : Q) : M unit :=
  doc <~ lift (fitz_open input_path) ;;
  rewrite_pages 0 (pages doc) ;;;
  let output_path := replace ".pdf" "-Accessible-Copy.pdf" input_path in
  save_with (save_outcome doc input_path output_path) output_path ;;;
  emit (Printed ("Processed and saved: " ++ output_path)).

(** ** The other formats and the dispatch

    The restyling of DOCX and PPTX documents changes run attributes only; the
    model keeps what reaches the file system and the console.  Opening such
    a document gives the exception its [save] raises for a path, if any. *)

Definition Saver : Type := string -> option exn.

Definition process_docx (docx_open : string -> result Saver)
  (input_path : string) : M unit :=
  doc <~ lift (docx_open input_path) ;;
  let output_path := create_output_filename input_path in
  save_with (doc output_path) output_path ;;;
  emit (Printed ("Processed and saved DOCX: " ++ output_path)).

Definition process_pptx (pptx_open : string -> result Saver)
  (input_path : string) : M unit :=
  prs <~ lift (pptx_open input_path) ;;
  let output_path := create_output_filename input_path in
  save_with (prs output_path) output_path ;;;
  emit (Printed ("Processed and saved PPTX: " ++ output_path)).

Record World : Type := mkWorld {
  fitz_open : string -> result Doc;
  docx_open : string -> result Saver;
  pptx_open : string -> result Saver
}.

(** [str(e)] *)
Definition exn_str (e : exn) : string :=
  match e with
  | KeyError k => "'" ++ k ++ "'"
  | TypeError m => m
  | ZeroDivisionError => "division by zero"
  | ValueError m => m
  | OverflowError m => m
  | OtherError m => m
  end.

(** [try: ... except Exception as e: messagebox.showerror(...)] *)
Definition catch_all (m : M unit) : M unit :=
  match m with
  | (t, Ok tt) => (t, Ok tt)
  | (t, Raise e) => (t ++ [ErrorDialog "Error processing file" (exn_str e)], Ok tt)
  end.

Definition handle_file (w : World) (file_path : string)
  (grid_size merge_threshold : Q) : M unit :=
  let ext := lower (snd (splitext file_path)) in
  catch_all
    (if String.eqb ext ".docx" then process_docx (docx_open w) file_path
     else if String.eqb ext ".pptx" then process_pptx (pptx_open w) file_path
     else if String.eqb ext ".pdf" then
       process_pdf (fitz_open w) file_path grid_size merge_threshold
     else emit (ErrorDialog "Unsupported file"
                          ("File type " ++ ext ++ " is not supported."))).

(** The paths saved by a run. *)
Fixpoint saved_paths (t : list Effect) : list string :=
  match t with
  | [] => []
  | Save p :: rest => p :: saved_paths rest
  | _ :: rest => saved_paths rest
  end.

(** The outlines drawn around text blocks (the rectangles of width 1/2). *)
Fixpoint outlines (t : list Effect) : list Rect :=
  match t with
  | [] => []
  | DrawRect _ r (Some _) None w _ :: rest =>
    if Qeq_bool w (1 # 2) then r :: outlines rest else outlines rest
  | _ :: rest => outlines rest
  end.

(** ** The reference merge of the specification

    The specification's block has a rectangle and a line sequence; [raw]
    is the dictionary the extractor produces for it. *)

Record TextBlock : Type := mkTextBlock { tb_bbox : Rect; tb_lines : list Line }.

Definition raw (tb : TextBlock) : Block :=
  mkBlock (Some 0%Z) (Some (tb_bbox tb)) (Some (tb_lines tb)).

Definition top (tb : TextBlock) : Q := y0 (tb_bbox tb).

Definition rect_union (a b : Rect) : Rect :=
  mkRect (py_min (x0 a) (x0 b)) (py_min (y0 a) (y0 b))
         (py_max (x1 a) (x1 b)) (py_max (y1 a) (y1 b)).

Definition mergeable (verticalThreshold : Q) (current next : TextBlock) : bool :=
  let verticalGap := top next - y1 (tb_bbox current) in
  Qle_bool verticalGap verticalThreshold
  && Qlt_bool (Qabs (x0 (tb_bbox next) - x0 (tb_bbox current))) 5.

Fixpoint reference_fold (verticalThreshold : Q) (current : TextBlock)
  (rest : list TextBlock) : list TextBlock :=
  match rest with
  | [] => [current]
  | next :: rest' =>
    if mergeable verticalThreshold current next
    then reference_fold verticalThreshold
           (mkTextBlock (rect_union (tb_bbox current) (tb_bbox next))
                        (tb_lines current ++ tb_lines next))
           rest'
    else current :: reference_fold verticalThreshold next rest'
  end.

Definition reference_sort (tbs : list TextBlock) : list TextBlock :=
  map snd (sort_keyed (map (fun tb => (top tb, tb)) tbs)).

Definition reference_merge (tbs : list TextBlock) (verticalThreshold : Q)
  : list TextBlock :=
  match reference_sort tbs with
  | [] => []
  | first :: rest => reference_fold verticalThreshold first rest
  end.

Definition all_lines (blocks : list Block) : list Line :=
  flat_map (fun b => get_or (lines b) []) blocks.

(** ** The image filter as the specification words it

    [background] is the exclusion test of the source as a proposition;
    [claimed_background] is the same test with "at least 98%" for the two
    near-full comparisons. *)

Definition aligned (a b : Q) : Prop := Qabs (a - b) < 1.

Definition background (bbox page_rect : Rect) : Prop :=
  let near_full_width := width page_rect * (98 # 100) < width bbox in
  let near_full_height := height page_rect * (98 # 100) < height bbox in
  let aligned_left := aligned (x0 bbox) (x0 page_rect) in
  let aligned_right := aligned (x1 bbox) (x1 page_rect) in
  let aligned_top := aligned (y0 bbox) (y0 page_rect) in
  let aligned_bottom := aligned (y1 bbox) (y1 page_rect) in
  (near_full_width /\ (aligned_top \/ aligned_bottom))
  \/ (near_full_height /\ (aligned_left \/ aligned_right))
  \/ (near_full_width /\ near_full_height /\ aligned_left /\ aligned_top).

Definition claimed_background (bbox page_rect : Rect) : Prop :=
  let near_full_width := width page_rect * (98 # 100) <= width bbox in
  let near_full_height := height page_rect * (98 # 100) <= height bbox in
  let aligned_left := aligned (x0 bbox) (x0 page_rect) in
  let aligned_right := aligned (x1 bbox) (x1 page_rect) in
  let aligned_top := aligned (y0 bbox) (y0 page_rect) in
  let aligned_bottom := aligned (y1 bbox) (y1 page_rect) in
  (near_full_width /\ (aligned_top \/ aligned_bottom))
  \/ (near_full_height /\ (aligned_left \/ aligned_right))
  \/ (near_full_width /\ near_full_height /\ aligned_left /\ aligned_top).

(** ** Sample inputs *)

(** A 600 x 800 page with one image reference placed at [bbox]. *)
Definition page_with_image (bbox : Rect) : Page :=
  mkPage (mkRect 0 0 600 800) [7%Z] (fun _ => Ok bbox) [] (fun _ _ => None).

Definition with_images (page : Page) (images : list Z) : Page :=
  mkPage (page_rect page) images (get_image_bbox page)
         (text_dict_blocks page) (insert_image_error page).

(** Two pages with the same text structure, whatever their images. *)
Definition same_text (p p' : Page) : Prop :=
  text_dict_blocks p = text_dict_blocks p'.

(** Two text blocks, one below the other: vertical gap 10, left edges 2 apart. *)
Definition upper_line : Line :=
  mkLine (Some [mkSpan (Some "Upper"%string) (Some (50, 120)) (Some 12)
                       (Some (mkRect 50 105 120 125))]).
Definition lower_line : Line :=
  mkLine (Some [mkSpan (Some "Lower"%string) (Some (52, 180)) (Some 12)
                       (Some (mkRect 52 165 120 185))]).
Definition upper_block : TextBlock := mkTextBlock (mkRect 50 100 300 150) [upper_line].
Definition lower_block : TextBlock := mkTextBlock (mkRect 52 160 300 210) [lower_line].

Definition two_block_page : Page :=
  mkPage (mkRect 0 0 600 800) [] (fun _ => Raise (OtherError "bad xref"))
         [raw upper_block; raw lower_block] (fun _ _ => None).

Definition two_block_doc : Doc := mkDoc [two_block_page] (fun _ => None).

Definition empty_pdf_world : World :=
  mkWorld (fun _ => Ok (mkDoc [] (fun _ => None)))
          (fun _ => Ok (fun _ => None)) (fun _ => Ok (fun _ => None)).

(** A page with three image references: the rectangle of xref 4 does not
    resolve, and the pixel data of xref 3 cannot be inserted. *)
Definition flaky_page : Page :=
  mkPage (mkRect 0 0 600 800) [3%Z; 4%Z; 5%Z]
         (fun x => if Z.eqb x 4 then Raise (OtherError "bad xref")
                   else Ok (mkRect 200 325 400 475))
         [mkBlock (Some 1%Z) (Some (mkRect 200 325 400 475)) None]
         (fun _ x => if Z.eqb x 3 then Some "bad pixmap"%string else None).

(** ** Notions used to state further properties *)

(** [outer] covers [inner]. *)
Definition covers (outer inner : Rect) : Prop :=
  x0 outer <= x0 inner /\ y0 outer <= y0 inner
  /\ x1 inner <= x1 outer /\ y1 inner <= y1 outer.

(** A text block as merge_text_blocks needs it: with both keys. *)
Definition has_bbox_and_lines (b : Block) : Prop :=
  type_is b 0 = true -> bbox b <> None /\ lines b <> None.

(** The rectangle of step 4 after the inset by the margin. *)
Definition inset (r : Rect) : Rect :=
  mkRect (x0 r + margin) (y0 r + margin) (x1 r - margin) (y1 r - margin).

(** The blocks step 4 redraws: text blocks with a rectangle at least 5 high
    and 10 wide. *)
Definition redrawn (b : Block) : option Rect :=
  match type_is b 0, bbox b with
  | true, Some r =>
    if Qlt_bool (height r) 5 || Qlt_bool (width r) 10 then None else Some r
  | _, _ => None
  end.

Definition blank (s : Span) : bool :=
  match strip (get_or (text s) EmptyString) with
  | EmptyString => true
  | _ => false
  end.

Definition is_some {A} (o : option A) : bool :=
  match o with
  | Some _ => true
  | None => false
  end.

(** A span step 4 can draw or skips. *)
Definition span_ok (s : Span) : bool :=
  blank s || (is_some (origin s) && is_some (span_bbox s)).

Definition block_spans (b : Block) : list Span :=
  flat_map (fun line => get_or (spans line) []) (get_or (lines b) []).

Definition block_ok (b : Block) : bool :=
  match redrawn b with
  | Some _ => forallb span_ok (block_spans b)
  | None => true
  end.

Definition option_list {A} (o : option A) : list A :=
  match o with
  | Some a => [a]
  | None => []
  end.

(** Effects that only draw on a page or print. *)
Definition is_drawing (e : Effect) : bool :=
  match e with
  | Save _ | ErrorDialog _ _ => false
  | _ => true
  end.

(** The page an effect draws on. *)
Definition effect_page (e : Effect) : option nat :=
  match e with
  | DrawRect i _ _ _ _ _ | InsertImage i _ _ | InsertText i _ _ _ _ _ => Some i
  | _ => None
  end.

(** What the rewriter may paint: white fills and black Helvetica text that
    is not blank. *)
Definition plain_style (e : Effect) : Prop :=
  match e with
  | DrawRect _ _ _ (Some fill) _ _ => fill = white
  | InsertText _ _ text fontname _ color =>
    fontname = "helv"%string /\ color = black /\ text <> EmptyString
  | _ => True
  end.

Fixpoint dialogs (t : list Effect) : list (string * string) :=
  match t with
  | [] => []
  | ErrorDialog title msg :: rest => (title, msg) :: dialogs rest
  | _ :: rest => dialogs rest
  end.

(** An effect of the rewriting of page [i]: a drawing in the plain style on
    that page, or a printed line. *)
Definition on_page (i : nat) (e : Effect) : Prop :=
  is_drawing e = true /\ plain_style e
  /\ (effect_page e = Some i \/ exists s, e = Printed s).

(** The path process_pdf saves to. *)
Definition pdf_output_path (input_path : string) : string :=
  replace ".pdf" "-Accessible-Copy.pdf" input_path.

(** Does [old] occur in [s]? *)
Fixpoint occurs (old s : string) : bool :=
  prefix old s
  || match s with
     | EmptyString => false
     | String _ s' => occurs old s'
     end.

(** ** The documents of process_docx and process_pptx

    What python-docx and python-pptx expose of a document, as far as the two
    functions read or write it.  The loops assign attributes in place; the
    functions below return the document after all assignments. *)

Definition RGB : Type := (Z * Z * Z)%type.

(** A run's font: the three attributes the functions assign, and two they
    never touch. *)
Record Font : Type := mkFont {
  color_rgb : option RGB;
  font_name : option string;
  highlight_color : option Z;
  font_size : option Q;
  bold : option bool
}.

Record Run : Type := mkRun { run_text : string; run_font : Font }.
Record Paragraph : Type := mkParagraph { runs : list Run }.
Record Cell : Type := mkCell { cell_paragraphs : list Paragraph }.
Record Row : Type := mkRow { cells : list Cell }.
Record Table : Type := mkTable { rows : list Row }.
Record Document : Type := mkDocument {
  paragraphs : list Paragraph;
  tables : list Table
}.

(** The three assignments on a run of process_docx. *)
Definition docx_restyle_run (run : Run) : Run :=
  let f := run_font run in
  mkRun (run_text run)
        (mkFont (Some (0, 0, 0)%Z) (Some "Arial"%string) None
                (font_size f) (bold f)).

Definition docx_restyle_paragraph (para : Paragraph) : Paragraph :=
  mkParagraph (map docx_restyle_run (runs para)).

Definition docx_restyle_table (table : Table) : Table :=
  mkTable (map (fun row =>
    mkRow (map (fun cell =>
      mkCell (map docx_restyle_paragraph (cell_paragraphs cell)))
      (cells row)))
    (rows table)).

(** The two loops of process_docx: body paragraphs, then tables. *)
Definition docx_restyle (doc : Document) : Document :=
  mkDocument (map docx_restyle_paragraph (paragraphs doc))
             (map docx_restyle_table (tables doc)).

Definition table_runs (table : Table) : list Run :=
  flat_map (fun row =>
    flat_map (fun cell => flat_map runs (cell_paragraphs cell)) (cells row))
    (rows table).

(** The runs the loops visit, in the order they visit them. *)
Definition document_runs (doc : Document) : list Run :=
  flat_map runs (paragraphs doc) ++ flat_map table_runs (tables doc).

Inductive MSO_FILL : Type :=
| SOLID | PATTERNED | GRADIENT | PICTURE | TEXTURED | BACKGROUND | GROUP.

(** A fill: its type, its foreground colour, and what
    [getattr(fill.fore_color, 'transparency', None)] gives. *)
Record Fill : Type := mkFill {
  fill_type : option MSO_FILL;
  fore_color_rgb : option RGB;
  fore_color_transparency : result (option Q)
}.

Definition pptx_white : RGB := (255, 255, 255)%Z.

(** [fill.solid()] followed by [fill.fore_color.rgb = white]. *)
Definition solid_white (fill : Fill) : Fill :=
  mkFill (Some SOLID) (Some pptx_white) (fore_color_transparency fill).

(** [fill.fore_color.rgb = white] alone. *)
Definition set_fore_white (fill : Fill) : Fill :=
  mkFill (fill_type fill) (Some pptx_white) (fore_color_transparency fill).

(** The argument is [shape.fill]; the result is the fill afterwards. *)
Definition safe_set_shape_fill_white (shape_fill : option Fill) : option Fill :=
  match shape_fill with
  | None => None
  | Some fill =>
    match fill_type fill with
    | Some SOLID =>
      match fore_color_transparency fill with
      | Raise _ => Some (solid_white fill)
      | Ok transparency =>
        match transparency with
        | None => Some (set_fore_white fill)
        | Some t => if Qlt_bool t 1 then Some (set_fore_white fill) else Some fill
        end
      end
    | Some PATTERNED | Some GRADIENT | Some PICTURE | Some TEXTURED =>
      Some (solid_white fill)
    | _ => Some fill
    end
  end.

(** A shape: its fill, and its text frame when it has one. *)
Record Shape : Type := mkShape {
  shape_fill : option Fill;
  text_frame : option (list Paragraph)
}.

Record Slide : Type := mkSlide { background_fill : Fill; shapes : list Shape }.
Record Presentation : Type := mkPresentation { slides : list Slide }.

(** The two assignments on a run of process_pptx. *)
Definition pptx_restyle_run (run : Run) : Run :=
  let f := run_font run in
  mkRun (run_text run)
        (mkFont (Some (0, 0, 0)%Z) (Some "Arial"%string) (highlight_color f)
                (font_size f) (bold f)).

Definition pptx_restyle_shape (shape : Shape) : Shape :=
  match text_frame shape with
  | Some paras =>
    mkShape (safe_set_shape_fill_white (shape_fill shape))
            (Some (map (fun para => mkParagraph (map pptx_restyle_run (runs para)))
                       paras))
  | None => shape
  end.

(** The loop over the slides of process_pptx. *)
Definition pptx_restyle (prs : Presentation) : Presentation :=
  mkPresentation
    (map (fun slide =>
            mkSlide (solid_white (background_fill slide))
                    (map pptx_restyle_shape (shapes slide)))
         (slides prs)).

Definition shape_runs (shape : Shape) : list Run :=
  flat_map runs (get_or (text_frame shape) []).

Definition presentation_runs (prs : Presentation) : list Run :=
  flat_map (fun slide => flat_map shape_runs (shapes slide)) (slides prs).

Definition restyled (keep_highlight : bool) (before after : Run) : Prop :=
  run_text after = run_text before
  /\ color_rgb (run_font after) = Some (0, 0, 0)%Z
  /\ font_name (run_font after) = Some "Arial"%string
  /\ highlight_color (run_font after)
     = (if keep_highlight then highlight_color (run_font before) else None)
  /\ font_size (run_font after) = font_size (run_font before)
  /\ bold (run_font after) = bold (run_font before).

(** ** snap_rect_expand_and_clamp over binary64 numbers

    The same function with the program's own arithmetic: rectangle
    coordinates are floats, the grid size is a Python [int] or [float],
    [math.floor] and [math.ceil] return an [int], and [int * float] converts
    the [int] first. *)

Module Binary64.
Import PrimFloat SpecFloat FloatOps.

Inductive number : Type :=
| Int (n : Z)
| Float (f : float).

Record FRect : Type := mkFRect { fx0 : float; fy0 : float; fx1 : float; fy1 : float }.

(** [math.floor] of a float. *)
Definition floor (f : float) : result Z :=
  match Prim2SF f with
  | S754_zero _ => Ok 0%Z
  | S754_finite s m e =>
    let v := if s then Z.neg m else Z.pos m in
    Ok (match e with
        | Z0 => v
        | Zpos p => v * Z.pow_pos 2 p
        | Zneg p => v / Z.pow_pos 2 p
        end)%Z
  | S754_infinity _ =>
    Raise (OverflowError "cannot convert float infinity to integer")
  | S754_nan => Raise (ValueError "cannot convert float NaN to integer")
  end.

(** [math.ceil] of a float. *)
Definition ceil (f : float) : result Z :=
  n <- floor (- f)%float ;; Ok (- n)%Z.

(** [float(n)] for an [int]: the nearest float, ties to even. *)
Definition of_int (n : Z) : result float :=
  let f := SF2Prim (binary_normalize prec emax n 0 false) in
  if is_infinity f then Raise (OverflowError "int too large to convert to float")
  else Ok f.

(** [x / grid_size] *)
Definition true_div (x : float) (grid_size : number) : result float :=
  match grid_size with
  | Float g => if is_zero g then Raise ZeroDivisionError else Ok (x / g)%float
  | Int k =>
    if Z.eqb k 0 then Raise ZeroDivisionError
    else g <- of_int k ;; Ok (x / g)%float
  end.

(** [n * grid_size], as the float [fitz.Rect] stores. *)
Definition times (n : Z) (grid_size : number) : result float :=
  match grid_size with
  | Float g => f <- of_int n ;; Ok (f * g)%float
  | Int k => of_int (n * k)
  end.

Definition py_max (a b : float) : float := if (a <? b)%float then b else a.
Definition py_min (a b : float) : float := if (b <? a)%float then b else a.

Definition snap_rect_expand_and_clamp (rect page_rect : FRect)
  (grid_size : number) : result FRect :=
  sx0 <- (q <- true_div (fx0 rect) grid_size ;; n <- floor q ;; times n grid_size) ;;
  sy0 <- (q <- true_div (fy0 rect) grid_size ;; n <- floor q ;; times n grid_size) ;;
  sx1 <- (q <- true_div (fx1 rect) grid_size ;; n <- ceil q ;; times n grid_size) ;;
  sy1 <- (q <- true_div (fy1 rect) grid_size ;; n <- ceil q ;; times n grid_size) ;;
  let snapped := mkFRect sx0 sy0 sx1 sy1 in
  (* Clamp to the page boundaries *)
  let clamped :=
    mkFRect (py_max (fx0 snapped) (fx0 page_rect))
            (py_max (fy0 snapped) (fy0 page_rect))
            (py_min (fx1 snapped) (fx1 page_rect))
            (py_min (fy1 snapped) (fy1 page_rect)) in
  Ok clamped.



End Binary64.

(** The blocks of [l] whose top edge is [k], in the order they have in [l]. *)
Definition with_top (k : Q) (l : list TextBlock) : list TextBlock :=
  filter (fun tb => Qeq_bool (top tb) k) l.

(** The border and the insertion attempts of step 3 for one block. *)
Definition image_block_trace (i : nat) (page : Page) (images : list Z)
  (block : Block) : list Effect :=
  match type_is block 1, bbox block with
  | true, Some r =>
    DrawRect i r (Some (99 # 100, 99 # 100, 99 # 100)) None 1 true
    :: trace (insert_first_image i page r images)
  | _, _ => []
  end.

(** * Properties *)

(** ** Arithmetic of the grid *)

Lemma Qlt_bool_iff a b : Qlt_bool a b = true <-> a < b.
Proof.
  unfold Qlt_bool. rewrite negb_true_iff. split; intro H.
  - apply Qnot_le_lt. intro Hle. apply Qle_bool_iff in Hle. congruence.
  - destruct (Qle_bool b a) eqn:E; [|reflexivity].
    apply Qle_bool_iff in E. exfalso. apply (Qlt_not_le _ _ H E).
Qed.

Lemma Qlt_bool_false a b : Qlt_bool a b = false <-> b <= a.
Proof.
  unfold Qlt_bool. rewrite negb_false_iff. apply Qle_bool_iff.
Qed.

Lemma py_max_cases a b :
  (a < b /\ py_max a b = b) \/ (b <= a /\ py_max a b = a).
Proof.
  unfold py_max. destruct (Qlt_bool a b) eqn:E.
  - left. split; [now apply Qlt_bool_iff | reflexivity].
  - right. split; [now apply Qlt_bool_false | reflexivity].
Qed.

Lemma py_min_cases a b :
  (b < a /\ py_min a b = b) \/ (a <= b /\ py_min a b = a).
Proof.
  unfold py_min. destruct (Qlt_bool b a) eqn:E.
  - left. split; [now apply Qlt_bool_iff | reflexivity].
  - right. split; [now apply Qlt_bool_false | reflexivity].
Qed.

Lemma py_max_lower a b : b <= py_max a b.
Proof. destruct (py_max_cases a b) as [[H ->]|[H ->]]; lra. Qed.

Lemma py_min_upper a b : py_min a b <= b.
Proof. destruct (py_min_cases a b) as [[H ->]|[H ->]]; lra. Qed.

Section Grid.
Variable g : Q.
Hypothesis g_pos : 0 < g.

Lemma g_nonzero : ~ g == 0.
Proof. intro H. rewrite H in g_pos. discriminate. Qed.

Lemma snap_returns rect page_rect :
  snap_rect_expand_and_clamp rect page_rect g =
  Ok (mkRect (py_max (floor_to_grid (x0 rect) g) (x0 page_rect))
             (py_max (floor_to_grid (y0 rect) g) (y0 page_rect))
             (py_min (ceil_to_grid (x1 rect) g) (x1 page_rect))
             (py_min (ceil_to_grid (y1 rect) g) (y1 page_rect))).
Proof.
  unfold snap_rect_expand_and_clamp.
  destruct (Qeq_bool g 0) eqn:E; [|reflexivity].
  apply Qeq_bool_iff in E. destruct (g_nonzero E).
Qed.
End Grid.

(** ** snap_rect_expand_and_clamp *)


(** X1: what the clamp does guarantee for every input: the low edges of the
    result are not below the page's low edges and its high edges not above
    the page's high edges. *)
Lemma snap_clamp_one_sided (r p out : Rect) (g : Q) :
  snap_rect_expand_and_clamp r p g = Ok out ->
  x0 p <= x0 out /\ y0 p <= y0 out /\ x1 out <= x1 p /\ y1 out <= y1 p.
Proof.
  unfold snap_rect_expand_and_clamp.
  destruct (Qeq_bool g 0); [discriminate|].
  intro H. injection H as <-. cbn [x0 y0 x1 y1].
  repeat split; first [apply py_max_lower | apply py_min_upper].
Qed.

(** C4: a rectangle lying entirely to the right of and below the page.  The
    clamp raises the low edges to at least the page's low edges and lowers the
    high edges to at most its high edges, and nothing more: the result has
    x0 = 100 > x1 = 50 and y0 = 100 > y1 = 50, so it is neither a valid
    rectangle nor inside the page. *)
Theorem snap_rect_expand_and_clamp_outside_page :
  let page := mkRect 0 0 50 50 in
  let out := mkRect 100 100 50 50 in
  snap_rect_expand_and_clamp (mkRect 100 100 110 110) page 10 = Ok out
  /\ ~ valid_rect out
  /\ ~ contained_in out page.
Proof.
  cbv zeta. split; [vm_compute; reflexivity|].
  unfold valid_rect, contained_in; cbn [x0 y0 x1 y1].
  split; intro H; decompose [and] H; lra.
Qed.

(** ** The sort of merge_text_blocks *)

Section Sorting.
Context {A : Type}.

Lemma insert_keyed_perm (x : Q * A) l : Permutation (x :: l) (insert_keyed x l).
Proof.
  induction l as [|y t IH]; cbn.
  - apply Permutation_refl.
  - destruct (Qlt_bool (fst y) (fst x)).
    + apply perm_trans with (y :: x :: t); [apply perm_swap|].
      now apply perm_skip.
    + apply Permutation_refl.
Qed.

Lemma sort_keyed_perm (l : list (Q * A)) : Permutation l (sort_keyed l).
Proof.
  induction l as [|x t IH]; cbn.
  - apply perm_nil.
  - apply perm_trans with (x :: sort_keyed t).
    + now apply perm_skip.
    + apply insert_keyed_perm.
Qed.

Lemma insert_keyed_ascending (x : Q * A) l :
  keys_ascending l -> keys_ascending (insert_keyed x l).
Proof.
  unfold keys_ascending.
  induction l as [|y t IH]; cbn; intro S.
  - constructor; constructor.
  - inversion S as [|? ? St Hy]; subst.
    destruct (Qlt_bool (fst y) (fst x)) eqn:E.
    + apply Qlt_bool_iff in E.
      constructor; [now apply IH|].
      apply Forall_forall. intros z Hz.
      apply (Permutation_in _ (Permutation_sym (insert_keyed_perm x t))) in Hz.
      destruct Hz as [<-|Hz]; [cbn beta; lra|].
      now apply (proj1 (Forall_forall _ _) Hy).
    + apply Qlt_bool_false in E.
      constructor; [exact S|].
      constructor; [exact E|].
      apply Forall_forall. intros z Hz.
      pose proof (proj1 (Forall_forall _ _) Hy z Hz) as Hyz.
      cbn beta in Hyz |- *. lra.
Qed.

Lemma sort_keyed_ascending (l : list (Q * A)) : keys_ascending (sort_keyed l).
Proof.
  induction l as [|x t IH]; cbn.
  - constructor.
  - now apply insert_keyed_ascending.
Qed.

(** Stability: the elements of any one key come out in their input order. *)
Lemma insert_keyed_stable (k : Q) (x : Q * A) l :
  filter (fun p => Qeq_bool (fst p) k) (insert_keyed x l)
  = filter (fun p => Qeq_bool (fst p) k) (x :: l).
Proof.
  induction l as [|y t IH]; [reflexivity|].
  cbn [insert_keyed].
  destruct (Qlt_bool (fst y) (fst x)) eqn:E; [|reflexivity].
  apply Qlt_bool_iff in E.
  cbn [filter] in *. rewrite IH.
  destruct (Qeq_bool (fst x) k) eqn:Ex; [|reflexivity].
  destruct (Qeq_bool (fst y) k) eqn:Ey; [|reflexivity].
  apply Qeq_bool_iff in Ex, Ey. lra.
Qed.

Lemma sort_keyed_stable (k : Q) (l : list (Q * A)) :
  filter (fun p => Qeq_bool (fst p) k) (sort_keyed l)
  = filter (fun p => Qeq_bool (fst p) k) l.
Proof.
  induction l as [|x t IH]; [reflexivity|].
  cbn [sort_keyed fold_right]. fold (sort_keyed t).
  rewrite insert_keyed_stable. cbn [filter]. now rewrite IH.
Qed.
End Sorting.

Lemma insert_keyed_map {A B} (f : A -> B) (x : Q * A) l :
  insert_keyed (fst x, f (snd x)) (map (fun p => (fst p, f (snd p))) l)
  = map (fun p => (fst p, f (snd p))) (insert_keyed x l).
Proof.
  induction l as [|y t IH]; [reflexivity|].
  cbn. destruct (Qlt_bool (fst y) (fst x)); cbn; [now rewrite IH | reflexivity].
Qed.

Lemma sort_keyed_map {A B} (f : A -> B) (l : list (Q * A)) :
  sort_keyed (map (fun p => (fst p, f (snd p))) l)
  = map (fun p => (fst p, f (snd p))) (sort_keyed l).
Proof.
  induction l as [|x t IH]; [reflexivity|].
  cbn [map sort_keyed fold_right]. fold (sort_keyed t).
  fold (sort_keyed (map (fun p => (fst p, f (snd p))) t)).
  rewrite IH. apply insert_keyed_map.
Qed.

Lemma filter_text_raw (tbs : list TextBlock) :
  filter (fun b => type_is b 0) (map raw tbs) = map raw tbs.
Proof.
  induction tbs as [|tb t IH]; [reflexivity|]. cbn. now rewrite IH.
Qed.

Lemma keys_of_raw (tbs : list TextBlock) :
  mapM (fun a => k <- top_key a ;; Ok (k, a)) (map raw tbs)
  = Ok (map (fun p => (fst p, raw (snd p))) (map (fun tb => (top tb, tb)) tbs)).
Proof.
  induction tbs as [|tb t IH]; [reflexivity|].
  cbn [map mapM]. rewrite IH. reflexivity.
Qed.

Lemma sorted_text_blocks_raw (tbs : list TextBlock) :
  sorted_text_blocks (map raw tbs) = Ok (map raw (reference_sort tbs)).
Proof.
  unfold sorted_text_blocks, py_sorted, reference_sort.
  rewrite filter_text_raw, keys_of_raw. cbn [rbind].
  rewrite sort_keyed_map, !map_map. reflexivity.
Qed.

(** ** The loop of merge_text_blocks against the reference fold *)

Lemma merge_step_first (thr : Q) (merged : list Block) (tb : TextBlock) :
  merge_step thr (merged, None) (raw tb) = Ok (merged, Some (raw tb)).
Proof. reflexivity. Qed.

Lemma merge_step_raw (thr : Q) (merged : list Block) (cur next : TextBlock) :
  merge_step thr (merged, Some (raw cur)) (raw next)
  = if mergeable thr cur next
    then Ok (merged,
             Some (raw (mkTextBlock (rect_union (tb_bbox cur) (tb_bbox next))
                                    (tb_lines cur ++ tb_lines next))))
    else Ok (merged ++ [raw cur], Some (raw next)).
Proof.
  unfold merge_step, mergeable, top; cbn.
  destruct (Qle_bool _ thr && Qlt_bool _ 5); reflexivity.
Qed.

Lemma merge_loop_reference (thr : Q) (rest : list TextBlock) :
  forall merged cur,
  exists m c,
    foldM (merge_step thr) (merged, Some (raw cur)) (map raw rest)
      = Ok (m, Some (raw c))
    /\ m ++ [raw c] = merged ++ map raw (reference_fold thr cur rest).
Proof.
  induction rest as [|next rest IH]; intros merged cur.
  - exists merged, cur. split; reflexivity.
  - cbn [map foldM reference_fold]. rewrite merge_step_raw.
    destruct (mergeable thr cur next); cbn [rbind].
    + apply IH.
    + destruct (IH (merged ++ [raw cur]) next) as (m & c & Hf & Hm).
      exists m, c. split; [exact Hf|].
      rewrite Hm, <- app_assoc. reflexivity.
Qed.

Lemma merge_text_blocks_reference (tbs : list TextBlock) (thr : Q) :
  merge_text_blocks (map raw tbs) thr = Ok (map raw (reference_merge tbs thr)).
Proof.
  unfold merge_text_blocks, reference_merge.
  rewrite sorted_text_blocks_raw. cbn [rbind].
  destruct (reference_sort tbs) as [|first rest]; [reflexivity|].
  cbn [map foldM]. rewrite merge_step_first. cbn [rbind].
  destruct (merge_loop_reference thr rest [] first) as (m & c & Hf & Hm).
  rewrite Hf. cbn [rbind]. cbn. now rewrite Hm.
Qed.

Lemma reference_sort_perm (tbs : list TextBlock) :
  Permutation tbs (reference_sort tbs).
Proof.
  unfold reference_sort.
  replace tbs with (map snd (map (fun tb => (top tb, tb)) tbs)) at 1.
  - apply Permutation_map, sort_keyed_perm.
  - rewrite map_map. cbn. apply map_id.
Qed.

Lemma reference_fold_lines (thr : Q) (rest : list TextBlock) :
  forall cur,
    flat_map tb_lines (reference_fold thr cur rest)
    = tb_lines cur ++ flat_map tb_lines rest.
Proof.
  induction rest as [|next rest IH]; intro cur; cbn [reference_fold flat_map].
  - reflexivity.
  - destruct (mergeable thr cur next).
    + rewrite IH. cbn [tb_lines]. now rewrite <- app_assoc.
    + cbn [flat_map]. now rewrite IH.
Qed.

Lemma reference_merge_lines (tbs : list TextBlock) (thr : Q) :
  flat_map tb_lines (reference_merge tbs thr)
  = flat_map tb_lines (reference_sort tbs).
Proof.
  unfold reference_merge.
  destruct (reference_sort tbs) as [|first rest]; [reflexivity|].
  apply reference_fold_lines.
Qed.

Lemma all_lines_raw (tbs : list TextBlock) :
  all_lines (map raw tbs) = flat_map tb_lines tbs.
Proof.
  unfold all_lines. induction tbs as [|tb t IH]; [reflexivity|].
  cbn. now rewrite IH.
Qed.

Lemma flat_map_perm {A B} (f : A -> list B) (l l' : list A) :
  Permutation l l' -> Permutation (flat_map f l) (flat_map f l').
Proof.
  induction 1; cbn.
  - apply perm_nil.
  - now apply Permutation_app_head.
  - rewrite !app_assoc. apply Permutation_app_tail, Permutation_app_comm.
  - eapply perm_trans; eassumption.
Qed.

Lemma ascending_tops (l : list (Q * TextBlock)) :
  Forall (fun p => fst p = top (snd p)) l ->
  keys_ascending l ->
  StronglySorted (fun a b => top a <= top b) (map snd l).
Proof.
  unfold keys_ascending.
  induction 1 as [|p l Kp Kl IH]; intro S; cbn [map]; [constructor|].
  inversion S as [|? ? Sl Hp]; subst.
  constructor; [now apply IH|].
  apply Forall_forall. intros tb Htb.
  apply in_map_iff in Htb. destruct Htb as (q & <- & Hq).
  pose proof (proj1 (Forall_forall _ _) Hp q Hq) as Hpq.
  pose proof (proj1 (Forall_forall _ _) Kl q Hq) as Kq.
  cbn beta in Hpq, Kq. rewrite <- Kp, <- Kq. exact Hpq.
Qed.

(** C5: merging the extractor's text blocks returns blocks whose lines are,
    as a multiset, exactly the lines of the input blocks: no line is dropped
    and none is duplicated.  This holds for every threshold. *)
Theorem merge_text_blocks_conserves_lines (tbs : list TextBlock) (thr : Q) :
  exists out,
    merge_text_blocks (map raw tbs) thr = Ok out
    /\ Permutation (all_lines out) (all_lines (map raw tbs)).
Proof.
  exists (map raw (reference_merge tbs thr)).
  split; [apply merge_text_blocks_reference|].
  rewrite !all_lines_raw, reference_merge_lines.
  apply flat_map_perm, Permutation_sym, reference_sort_perm.
Qed.

(** C6: on the extractor's text blocks, merge_text_blocks computes the
    reference algorithm (stable sort by y0, then one fold with a single
    accumulator that merges on gap <= threshold and left edges closer than 5,
    and emits otherwise); an empty input gives an empty output and a single
    block comes back unchanged. *)
Theorem merge_text_blocks_is_reference_merge :
  (forall (tbs : list TextBlock) (thr : Q),
     merge_text_blocks (map raw tbs) thr
     = Ok (map raw (reference_merge tbs thr)))
  /\ (forall thr, merge_text_blocks [] thr = Ok [])
  /\ (forall tb thr, merge_text_blocks [raw tb] thr = Ok [raw tb]).
Proof.
  split; [exact merge_text_blocks_reference|].
  split; reflexivity.
Qed.

Lemma reference_sort_stable (tbs : list TextBlock) (k : Q) :
  with_top k (reference_sort tbs) = with_top k tbs.
Proof.
  unfold with_top, reference_sort.
  pose proof (sort_keyed_stable k (map (fun tb => (top tb, tb)) tbs)) as St.
  apply (f_equal (map snd)) in St.
  assert (F : forall l : list (Q * TextBlock),
            Forall (fun p => fst p = top (snd p)) l ->
            map snd (filter (fun p => Qeq_bool (fst p) k) l)
            = filter (fun tb => Qeq_bool (top tb) k) (map snd l)).
  { induction 1 as [|p l Hp Hl IH]; [reflexivity|].
    cbn [filter map]. rewrite <- Hp.
    destruct (Qeq_bool (fst p) k); cbn [map]; now rewrite IH. }
  rewrite !F in St.
  - rewrite St, map_map. cbn. now rewrite map_id.
  - apply Forall_forall. intros p Hp.
    apply in_map_iff in Hp. destruct Hp as (tb & <- & _). reflexivity.
  - apply Forall_forall. intros p Hp.
    apply (Permutation_in _
             (Permutation_sym
                (sort_keyed_perm (map (fun tb => (top tb, tb)) tbs)))) in Hp.
    apply in_map_iff in Hp. destruct Hp as (tb & <- & _). reflexivity.
Qed.

Lemma reference_sort_sorted (tbs : list TextBlock) :
  StronglySorted (fun a b => top a <= top b) (reference_sort tbs).
Proof.
  unfold reference_sort. apply ascending_tops.
  - apply Forall_forall. intros p Hp.
    apply (Permutation_in _
             (Permutation_sym
                (sort_keyed_perm (map (fun tb => (top tb, tb)) tbs)))) in Hp.
    apply in_map_iff in Hp. destruct Hp as (tb & <- & _). reflexivity.
  - apply sort_keyed_ascending.
Qed.

Lemma with_top_head (a : TextBlock) (l : list TextBlock) :
  with_top (top a) (a :: l) = a :: with_top (top a) l.
Proof.
  unfold with_top. cbn [filter].
  assert (E : Qeq_bool (top a) (top a) = true)
    by (apply Qeq_bool_iff; reflexivity).
  now rewrite E.
Qed.

Lemma with_top_in (k : Q) (x : TextBlock) (l : list TextBlock) :
  In x (with_top k l) -> In x l.
Proof. unfold with_top. intro H. now apply filter_In in H. Qed.

(** Two ascending lists with the same blocks, in the same order, at every
    top edge are the same list: the stable sort has one possible result. *)
Lemma ascending_with_same_ties_equal (s : list TextBlock) :
  forall s',
    StronglySorted (fun a b => top a <= top b) s ->
    StronglySorted (fun a b => top a <= top b) s' ->
    (forall k, with_top k s = with_top k s') ->
    s = s'.
Proof.
  induction s as [|a t IH]; intros s' Ss Ss' H.
  - destruct s' as [|b t']; [reflexivity|].
    specialize (H (top b)). rewrite with_top_head in H. discriminate H.
  - destruct s' as [|b t'].
    { specialize (H (top a)). rewrite with_top_head in H. discriminate H. }
    inversion Ss as [|? ? St Ha]; subst.
    inversion Ss' as [|? ? St' Hb]; subst.
    assert (Eab : a = b).
    { pose proof (H (top a)) as Ka. rewrite with_top_head in Ka.
      pose proof (H (top b)) as Kb. rewrite with_top_head in Kb.
      destruct (Qeq_bool (top b) (top a)) eqn:E1.
      - unfold with_top in Ka at 2. cbn [filter] in Ka. rewrite E1 in Ka.
        now injection Ka.
      - destruct (Qeq_bool (top a) (top b)) eqn:E2.
        + apply Qeq_bool_iff in E2. symmetry in E2.
          apply Qeq_bool_iff in E2. congruence.
        + assert (Ia : In a t').
          { apply (with_top_in (top a)).
            unfold with_top in Ka at 2. cbn [filter] in Ka. rewrite E1 in Ka.
            fold (with_top (top a) t') in Ka. rewrite <- Ka. now left. }
          assert (Ib : In b t).
          { apply (with_top_in (top b)).
            unfold with_top in Kb at 1. cbn [filter] in Kb. rewrite E2 in Kb.
            fold (with_top (top b) t) in Kb. rewrite Kb. now left. }
          pose proof (proj1 (Forall_forall _ _) Ha b Ib) as Lab.
          pose proof (proj1 (Forall_forall _ _) Hb a Ia) as Lba.
          cbn beta in Lab, Lba.
          assert (Q : top a == top b) by lra.
          apply Qeq_bool_iff in Q. congruence. }
    subst b. f_equal. apply IH; try assumption.
    intro k. specialize (H k). unfold with_top in *. cbn [filter] in H.
    destruct (Qeq_bool (top a) k); [now injection H | exact H].
Qed.

(** C9: merge_text_blocks returns the fold over one particular ordering of
    its input: a permutation in ascending order of y0 in which blocks of
    equal y0 keep their input order.  There is only one such ordering, so the
    output is the same for any two inputs that hold the same blocks in the
    same order at every y0; in particular for equal inputs, and for any
    reordering of blocks whose y0 are pairwise different. *)
Theorem merge_text_blocks_deterministic_stable_sort :
  (forall (tbs : list TextBlock) (thr : Q),
     exists s,
       sorted_text_blocks (map raw tbs) = Ok (map raw s)
       /\ Permutation tbs s
       /\ StronglySorted (fun a b => top a <= top b) s
       /\ (forall k, with_top k s = with_top k tbs)
       /\ merge_text_blocks (map raw tbs) thr
          = Ok (map raw (match s with
                         | [] => []
                         | first :: rest => reference_fold thr first rest
                         end)))
  /\ (forall (tbs tbs' : list TextBlock) (thr : Q),
        (forall k, with_top k tbs = with_top k tbs') ->
        merge_text_blocks (map raw tbs) thr
        = merge_text_blocks (map raw tbs') thr).
Proof.
  split.
  - intros tbs thr. exists (reference_sort tbs).
    split; [apply sorted_text_blocks_raw|].
    split; [apply reference_sort_perm|].
    split; [apply reference_sort_sorted|].
    split; [intro k; apply reference_sort_stable|].
    apply merge_text_blocks_reference.
  - intros tbs tbs' thr H.
    rewrite !merge_text_blocks_reference. unfold reference_merge.
    assert (E : reference_sort tbs = reference_sort tbs').
    { apply ascending_with_same_ties_equal;
        try apply reference_sort_sorted.
      intro k. now rewrite !reference_sort_stable. }
    now rewrite E.
Qed.

Lemma merge_text_blocks_deterministic_stable_sort_witness :
  merge_text_blocks (map raw [lower_block; upper_block]) 15
  = merge_text_blocks (map raw [upper_block; lower_block]) 15.
Proof.
  apply (proj2 merge_text_blocks_deterministic_stable_sort
               [lower_block; upper_block] [upper_block; lower_block] 15).
  intro k. unfold with_top. cbn [filter].
  destruct (Qeq_bool (top lower_block) k) eqn:El;
    destruct (Qeq_bool (top upper_block) k) eqn:Eu; try reflexivity.
  apply Qeq_bool_iff in El, Eu. cbn in El, Eu. exfalso. lra.
Defined.

(** ** extract_images_with_bboxes *)

Lemma fold_left_app_flat_map {A B} (f : A -> list B) (l : list A) :
  forall init, fold_left (fun acc a => acc ++ f a) l init = init ++ flat_map f l.
Proof.
  induction l as [|a t IH]; intro init; cbn.
  - now rewrite app_nil_r.
  - now rewrite IH, app_assoc.
Qed.

Lemma extract_images_flat_map (page : Page) :
  extract_images_with_bboxes page
  = flat_map (extract_one page) (get_images page).
Proof.
  unfold extract_images_with_bboxes.
  now rewrite fold_left_app_flat_map.
Qed.

Lemma is_background_iff (b p : Rect) :
  is_background b p = true <-> background b p.
Proof.
  unfold is_background, background, aligned.
  rewrite !orb_true_iff, !andb_true_iff, !orb_true_iff, !Qlt_bool_iff.
  tauto.
Qed.

Lemma extract_one_resolved (page : Page) (x : Z) (b : Rect) :
  get_image_bbox page x = Ok b ->
  (extract_one page x = [mkImageRef x b]
   /\ 10 <= width b /\ 10 <= height b /\ ~ background b (page_rect page))
  \/ (extract_one page x = []
      /\ ~ (10 <= width b /\ 10 <= height b /\ ~ background b (page_rect page))).
Proof.
  intro Hb. unfold extract_one. rewrite Hb.
  destruct (Qlt_bool (width b) 10) eqn:Ew; cbn [orb].
  { apply Qlt_bool_iff in Ew. right. split; [reflexivity|]. intros (H & _). lra. }
  apply Qlt_bool_false in Ew.
  destruct (Qlt_bool (height b) 10) eqn:Eh.
  { apply Qlt_bool_iff in Eh. right. split; [reflexivity|]. intros (_ & H & _). lra. }
  apply Qlt_bool_false in Eh.
  destruct (is_background b (page_rect page)) eqn:Eb.
  - apply is_background_iff in Eb. right. split; [reflexivity|]. tauto.
  - left. repeat split; try assumption.
    intro H. apply is_background_iff in H. congruence.
Qed.

(** C7, as amended: an image reference of the page whose rectangle resolves
    is retained exactly when its width and height are at least 10 and it is
    not a background image, where near-full means strictly more than 98% of
    the page's width or height and aligned means an edge distance strictly
    below 1.  The full-page image and the full-width top band are excluded,
    the centred 200 x 150 image is retained. *)
Theorem extract_images_retains_iff :
  (forall (page : Page) (x : Z) (b : Rect),
     In x (get_images page) ->
     get_image_bbox page x = Ok b ->
     (In (mkImageRef x b) (extract_images_with_bboxes page)
      <-> 10 <= width b /\ 10 <= height b /\ ~ background b (page_rect page)))
  /\ extract_images_with_bboxes (page_with_image (mkRect 0 0 600 800)) = []
  /\ extract_images_with_bboxes (page_with_image (mkRect 0 0 600 40)) = []
  /\ extract_images_with_bboxes (page_with_image (mkRect 200 325 400 475))
     = [mkImageRef 7 (mkRect 200 325 400 475)].
Proof.
  split; [|repeat split; vm_compute; reflexivity].
  intros page x b Hin Hb. rewrite extract_images_flat_map, in_flat_map.
  split.
  - intros (x' & _ & Hx').
    unfold extract_one in Hx'.
    destruct (get_image_bbox page x') as [b'|] eqn:Hb'; [|destruct Hx'].
    destruct (extract_one_resolved page x' b' Hb') as [(E & H)|(E & _)];
      unfold extract_one in E; rewrite Hb' in E; rewrite E in Hx'.
    + destruct Hx' as [Hx'|[]]. injection Hx' as -> ->. exact H.
    + destruct Hx'.
  - intro H. exists x. split; [exact Hin|].
    destruct (extract_one_resolved page x b Hb) as [(E & _)|(_ & N)].
    + rewrite E. now left.
    + destruct (N H).
Qed.

Lemma extract_images_retains_iff_witness :
  In (mkImageRef 7 (mkRect 200 325 400 475))
     (extract_images_with_bboxes (page_with_image (mkRect 200 325 400 475)))
  <-> 10 <= width (mkRect 200 325 400 475)
      /\ 10 <= height (mkRect 200 325 400 475)
      /\ ~ background (mkRect 200 325 400 475)
                      (page_rect (page_with_image (mkRect 200 325 400 475))).
Proof.
  apply (proj1 extract_images_retains_iff
               (page_with_image (mkRect 200 325 400 475)) 7%Z
               (mkRect 200 325 400 475)).
  - left. reflexivity.
  - reflexivity.
Defined.

(** C7 as stated fails at 98% exactly: a top-aligned band 588 wide on the
    600-wide page is kept by the code although it is "at least 98%" wide. *)
Lemma extract_images_keeps_band_at_98_percent :
  let b := mkRect 0 0 588 40 in
  let page := page_with_image b in
  ~ (In (mkImageRef 7 b) (extract_images_with_bboxes page)
     <-> 10 <= width b /\ 10 <= height b
         /\ ~ claimed_background b (page_rect page)).
Proof.
  cbv zeta. intros [H _].
  assert (K : In (mkImageRef 7 (mkRect 0 0 588 40))
                 (extract_images_with_bboxes (page_with_image (mkRect 0 0 588 40))))
    by (vm_compute; left; reflexivity).
  destruct (H K) as (_ & _ & N). apply N.
  left. split.
  - vm_compute. discriminate.
  - left. vm_compute. reflexivity.
Qed.

(** ** Effects: traces and outcomes of composed computations *)

Lemma outcome_mbind {A B} (m : M A) (f : A -> M B) :
  outcome (mbind m f) = rbind (outcome m) (fun a => outcome (f a)).
Proof.
  destruct m as [t [a|e]]; cbn; [|reflexivity].
  destruct (f a); reflexivity.
Qed.

Lemma trace_mbind {A B} (m : M A) (f : A -> M B) :
  trace (mbind m f)
  = trace m ++ match outcome m with
               | Ok a => trace (f a)
               | Raise _ => []
               end.
Proof.
  destruct m as [t [a|e]]; cbn.
  - destruct (f a); reflexivity.
  - now rewrite app_nil_r.
Qed.

Lemma insert_first_image_returns (i : nat) (page : Page) (r : Rect)
  (images : list Z) :
  outcome (insert_first_image i page r images) = Ok tt.
Proof.
  induction images as [|x rest IH]; cbn [insert_first_image]; [reflexivity|].
  destruct (insert_image_error page r x); [|reflexivity].
  rewrite outcome_mbind. cbn. exact IH.
Qed.

Lemma image_layer_returns (i : nat) (page : Page) (blocks : list Block)
  (images : list Z) :
  outcome (image_layer i page blocks images) = Ok tt.
Proof.
  unfold image_layer.
  induction blocks as [|b rest IH]; cbn [for_each]; [reflexivity|].
  rewrite outcome_mbind.
  destruct (type_is b 1), (bbox b); cbn [outcome mret snd rbind]; try exact IH.
  rewrite outcome_mbind. cbn [outcome emit snd rbind].
  rewrite insert_first_image_returns. exact IH.
Qed.

Lemma rewrite_page_outcome (i : nat) (page : Page) :
  outcome (rewrite_page i page) = outcome (text_layer i (text_dict_blocks page)).
Proof.
  unfold rewrite_page.
  rewrite outcome_mbind. cbn [outcome emit snd rbind].
  rewrite outcome_mbind, image_layer_returns. reflexivity.
Qed.

Lemma rewrite_pages_outcome (ps ps' : list Page) :
  Forall2 same_text ps ps' ->
  forall i, outcome (rewrite_pages i ps) = outcome (rewrite_pages i ps').
Proof.
  induction 1 as [|p p' ps ps' Hp Hps IH]; intro i; [reflexivity|].
  cbn [rewrite_pages]. rewrite !outcome_mbind, !rewrite_page_outcome.
  unfold same_text in Hp. rewrite Hp.
  destruct (outcome (text_layer i (text_dict_blocks p'))); cbn [rbind];
    [apply IH | reflexivity].
Qed.

Lemma insert_first_image_skips_failures (i : nat) (page : Page) (r : Rect)
  (before : list Z) (x : Z) (after : list Z) (msg : string) :
  (forall y, In y before -> insert_image_error page r y <> None) ->
  insert_image_error page r x = Some msg ->
  trace (insert_first_image i page r (before ++ x :: after))
  = trace (insert_first_image i page r before)
    ++ Printed ("Error inserting image: " ++ msg)
    :: trace (insert_first_image i page r after).
Proof.
  intros Hbefore Hx.
  induction before as [|y before IH]; cbn [app insert_first_image].
  - rewrite Hx, trace_mbind. reflexivity.
  - destruct (insert_image_error page r y) as [m|] eqn:Ey.
    + rewrite !trace_mbind. cbn [outcome emit snd trace fst].
      rewrite IH; [reflexivity|].
      intros z Hz. apply Hbefore. now right.
    + exfalso. apply (Hbefore y); [now left | exact Ey].
Qed.

(** ** process_pdf and the dispatch *)

(** C3: process_pdf, and handle_file around it, do the same thing for any two
    grid sizes and any two merge thresholds: same effects, same outcome. *)
Theorem process_pdf_ignores_grid_size_and_merge_threshold :
  (forall (fitz_open : string -> result Doc) (input_path : string)
          (grid_size grid_size' merge_threshold merge_threshold' : Q),
     process_pdf fitz_open input_path grid_size merge_threshold
     = process_pdf fitz_open input_path grid_size' merge_threshold')
  /\ (forall (w : World) (file_path : string)
             (grid_size grid_size' merge_threshold merge_threshold' : Q),
        handle_file w file_path grid_size merge_threshold
        = handle_file w file_path grid_size' merge_threshold').
Proof.
  split; intros; reflexivity.
Qed.

(** C1: the two-block page (gap 10, left edges 2 apart) rewritten with merge
    threshold 15.  The rewriter draws one outline per raw block, each the
    block's own rectangle inset by the margin, although merge_text_blocks on
    the same blocks with the same threshold returns the single merged block
    with the upper line before the lower one. *)
Theorem process_pdf_redraws_unmerged_blocks :
  outlines (trace (process_pdf (fun _ => Ok two_block_doc) "in.pdf" 10 15))
  = [mkRect 53 103 297 147; mkRect 55 163 297 207]
  /\ outcome (process_pdf (fun _ => Ok two_block_doc) "in.pdf" 10 15) = Ok tt
  /\ merge_text_blocks (text_dict_blocks two_block_page) 15
     = Ok [raw (mkTextBlock (mkRect 50 100 300 210) [upper_line; lower_line])].
Proof.
  repeat split; vm_compute; reflexivity.
Qed.

(** C2: a PDF path whose extension is in upper case is dispatched to
    process_pdf, whose replacement of ".pdf" leaves it unchanged: the save
    goes to the input path itself.  A path with ".pdf" also in a directory
    name is rewritten in both places.  create_output_filename, which the
    DOCX and PPTX paths use, gives the derived name in both cases. *)
Theorem process_pdf_output_path_not_derived :
  saved_paths (trace (handle_file empty_pdf_world "REPORT.PDF" 20 30))
  = ["REPORT.PDF"%string]
  /\ create_output_filename "REPORT.PDF" = "REPORT-Accessible-Copy.PDF"%string
  /\ saved_paths (trace (handle_file empty_pdf_world "REPORT.DOCX" 20 30))
     = ["REPORT-Accessible-Copy.DOCX"%string]
  /\ saved_paths (trace (handle_file empty_pdf_world "a.pdf.d/x.pdf" 20 30))
     = ["a-Accessible-Copy.pdf.d/x-Accessible-Copy.pdf"%string]
  /\ create_output_filename "a.pdf.d/x.pdf"
     = "a.pdf.d/x-Accessible-Copy.pdf"%string.
Proof.
  repeat split; vm_compute; reflexivity.
Qed.

(** ** create_output_filename *)

Lemma string_length_app (a b : string) :
  String.length (a ++ b) = (String.length a + String.length b)%nat.
Proof.
  induction a as [|c a IH]; cbn; [reflexivity | now rewrite IH].
Qed.

Lemma substring_whole (s : string) : substring 0 (String.length s) s = s.
Proof.
  induction s as [|c s IH]; cbn; [reflexivity | now rewrite IH].
Qed.

Lemma substring_rejoin (d : nat) :
  forall s, (substring 0 d s ++ substring d (String.length s - d) s)%string = s.
Proof.
  induction d as [|d IH]; intro s.
  - rewrite Nat.sub_0_r, substring_whole. now destruct s.
  - destruct s as [|c s]; [reflexivity|].
    cbn. now rewrite IH.
Qed.

(** The two parts returned by [splitext] make up the path. *)
Lemma splitext_rejoins (p : string) :
  (fst (splitext p) ++ snd (splitext p))%string = p.
Proof.
  unfold splitext.
  destruct (_ && _); cbn [fst snd].
  - apply substring_rejoin.
  - induction p as [|c p IH]; cbn; [reflexivity | now rewrite IH].
Qed.

Lemma create_output_filename_length (p : string) :
  String.length (create_output_filename p) = (String.length p + 16)%nat.
Proof.
  unfold create_output_filename.
  pose proof (splitext_rejoins p) as J.
  destruct (splitext p) as [base ext]. cbn [fst snd] in J.
  rewrite <- J.
  rewrite !string_length_app. cbn. lia.
Qed.

(** X22: the helper used for DOCX and PPTX lengthens the path by the marker's
    16 characters, so its result is never the input path. *)
Lemma create_output_filename_is_new (p : string) :
  create_output_filename p <> p.
Proof.
  intro E. apply (f_equal String.length) in E.
  rewrite create_output_filename_length in E. lia.
Qed.

(** Alignment is strict too: a full-width band whose top edge is exactly one
    unit below the page's top edge is kept. *)
Lemma extract_images_keeps_band_one_unit_off :
  extract_images_with_bboxes (page_with_image (mkRect 0 1 600 41))
  = [mkImageRef 7 (mkRect 0 1 600 41)].
Proof. vm_compute. reflexivity. Qed.


(** ** More on snap_rect_expand_and_clamp *)

Lemma snap_clamp_one_sided_witness :
  let p := mkRect 0 0 600 800 in
  let out := mkRect 10 10 40 50 in
  x0 p <= x0 out /\ y0 p <= y0 out /\ x1 out <= x1 p /\ y1 out <= y1 p.
Proof.
  apply (snap_clamp_one_sided (mkRect 12 17 33 48) (mkRect 0 0 600 800)
                              (mkRect 10 10 40 50) 10).
  vm_compute. reflexivity.
Defined.

Lemma floor_to_grid_mono (g x y : Q) :
  0 < g -> x <= y -> floor_to_grid x g <= floor_to_grid y g.
Proof.
  intros Hg Hxy. unfold floor_to_grid.
  apply Qmult_le_compat_r; [|lra].
  rewrite <- Zle_Qle. apply Qfloor_resp_le.
  unfold Qdiv. apply Qmult_le_compat_r; [exact Hxy|].
  apply Qinv_le_0_compat. lra.
Qed.

Lemma ceil_to_grid_mono (g x y : Q) :
  0 < g -> x <= y -> ceil_to_grid x g <= ceil_to_grid y g.
Proof.
  intros Hg Hxy. unfold ceil_to_grid.
  apply Qmult_le_compat_r; [|lra].
  rewrite <- Zle_Qle. apply Qceiling_resp_le.
  unfold Qdiv. apply Qmult_le_compat_r; [exact Hxy|].
  apply Qinv_le_0_compat. lra.
Qed.

(** X5: with a positive grid and a fixed page, a larger rectangle gives a
    larger result: if [r'] covers [r], the result for [r'] covers the result
    for [r]. *)
Theorem snap_monotone (r r' p out out' : Rect) (g : Q) :
  0 < g -> covers r' r ->
  snap_rect_expand_and_clamp r p g = Ok out ->
  snap_rect_expand_and_clamp r' p g = Ok out' ->
  covers out' out.
Proof.
  intros Hg (Cx0 & Cy0 & Cx1 & Cy1).
  rewrite !(snap_returns g Hg). intros H H'.
  injection H as <-. injection H' as <-.
  unfold covers; cbn [x0 y0 x1 y1].
  pose proof (floor_to_grid_mono g _ _ Hg Cx0).
  pose proof (floor_to_grid_mono g _ _ Hg Cy0).
  pose proof (ceil_to_grid_mono g _ _ Hg Cx1).
  pose proof (ceil_to_grid_mono g _ _ Hg Cy1).
  destruct (py_max_cases (floor_to_grid (x0 r) g) (x0 p)) as [[? ->]|[? ->]];
  destruct (py_max_cases (floor_to_grid (y0 r) g) (y0 p)) as [[? ->]|[? ->]];
  destruct (py_min_cases (ceil_to_grid (x1 r) g) (x1 p)) as [[? ->]|[? ->]];
  destruct (py_min_cases (ceil_to_grid (y1 r) g) (y1 p)) as [[? ->]|[? ->]];
  destruct (py_max_cases (floor_to_grid (x0 r') g) (x0 p)) as [[? ->]|[? ->]];
  destruct (py_max_cases (floor_to_grid (y0 r') g) (y0 p)) as [[? ->]|[? ->]];
  destruct (py_min_cases (ceil_to_grid (x1 r') g) (x1 p)) as [[? ->]|[? ->]];
  destruct (py_min_cases (ceil_to_grid (y1 r') g) (y1 p)) as [[? ->]|[? ->]];
  repeat split; lra.
Qed.

Lemma snap_monotone_witness :
  covers (mkRect 0 10 40 60) (mkRect 10 10 40 50).
Proof.
  apply (snap_monotone (mkRect 12 17 33 48) (mkRect 5 11 33 52)
                       (mkRect 0 0 600 800)
                       (mkRect 10 10 40 50) (mkRect 0 10 40 60) 10).
  - reflexivity.
  - repeat split; cbn; lra.
  - vm_compute. reflexivity.
  - vm_compute. reflexivity.
Defined.

(** ** More on merge_text_blocks *)

Lemma filter_idempotent {A} (f : A -> bool) (l : list A) :
  filter f (filter f l) = filter f l.
Proof.
  induction l as [|a t IH]; [reflexivity|].
  cbn. destruct (f a) eqn:E; cbn; [rewrite E, IH|]; auto.
Qed.

Lemma merge_text_blocks_of_text_blocks (blocks : list Block) (thr : Q) :
  merge_text_blocks (filter (fun b => type_is b 0) blocks) thr
  = merge_text_blocks blocks thr.
Proof.
  unfold merge_text_blocks, sorted_text_blocks.
  now rewrite filter_idempotent.
Qed.

Lemma text_blocks_are_raw (blocks : list Block) :
  Forall has_bbox_and_lines blocks ->
  exists tbs, filter (fun b => type_is b 0) blocks = map raw tbs.
Proof.
  induction 1 as [|b t Hb Ht (tbs & IH)]; [now exists []|].
  cbn [filter]. destruct (type_is b 0) eqn:E.
  - destruct (Hb E) as (Hbox & Hlines).
    destruct b as [[ty|] [r|] [l|]]; cbn in *; try congruence.
    apply Z.eqb_eq in E. subst ty.
    exists (mkTextBlock r l :: tbs). cbn. now rewrite IH.
  - now exists tbs.
Qed.

(** X6: blocks that are not text blocks are ignored, whatever keys they have
    or lack.  When every text block of the input has a rectangle and lines,
    merge_text_blocks returns; the result is the one for the text blocks
    alone, consists of text blocks with both keys, and holds the lines of the
    input's text blocks. *)
Theorem merge_text_blocks_ignores_other_blocks (blocks : list Block) (thr : Q) :
  Forall has_bbox_and_lines blocks ->
  exists out,
    merge_text_blocks blocks thr = Ok out
    /\ merge_text_blocks (filter (fun b => type_is b 0) blocks) thr = Ok out
    /\ Forall (fun b => type_is b 0 = true /\ bbox b <> None /\ lines b <> None) out
    /\ Permutation (all_lines out)
                   (all_lines (filter (fun b => type_is b 0) blocks)).
Proof.
  intro H. destruct (text_blocks_are_raw blocks H) as (tbs & E).
  exists (map raw (reference_merge tbs thr)).
  rewrite <- (merge_text_blocks_of_text_blocks blocks), E.
  rewrite merge_text_blocks_reference.
  repeat split.
  - apply Forall_forall. intros b Hb. apply in_map_iff in Hb.
    destruct Hb as (tb & <- & _). cbn. repeat split; discriminate.
  - rewrite !all_lines_raw, reference_merge_lines.
    apply flat_map_perm, Permutation_sym, reference_sort_perm.
Qed.

Lemma merge_text_blocks_ignores_other_blocks_witness :
  exists out,
    merge_text_blocks
      [raw upper_block; mkBlock (Some 1%Z) None None; raw lower_block] 15
    = Ok out
    /\ merge_text_blocks
         (filter (fun b => type_is b 0)
                 [raw upper_block; mkBlock (Some 1%Z) None None; raw lower_block])
         15
       = Ok out
    /\ Forall (fun b => type_is b 0 = true /\ bbox b <> None /\ lines b <> None) out
    /\ Permutation
         (all_lines out)
         (all_lines
            (filter (fun b => type_is b 0)
                    [raw upper_block; mkBlock (Some 1%Z) None None;
                     raw lower_block])).
Proof.
  apply (merge_text_blocks_ignores_other_blocks
           [raw upper_block; mkBlock (Some 1%Z) None None; raw lower_block] 15).
  repeat constructor; cbn; discriminate.
Defined.

Lemma keys_fail_without_bbox (l : list Block) (b : Block) :
  In b l -> bbox b = None ->
  mapM (fun a => k <- top_key a ;; Ok (k, a)) l = Raise (KeyError "bbox").
Proof.
  intros Hin Hb.
  induction l as [|a t IH]; [destruct Hin|].
  cbn [mapM]. unfold top_key at 1.
  destruct (bbox a) as [r|] eqn:Ea; cbn; [|reflexivity].
  destruct Hin as [->|Hin]; [congruence|].
  now rewrite (IH Hin).
Qed.

(** X7: a text block without a rectangle makes merge_text_blocks raise
    KeyError 'bbox', wherever the block stands and whatever the others are. *)
Theorem merge_text_blocks_missing_bbox (blocks : list Block) (b : Block) (thr : Q) :
  In b blocks -> type_is b 0 = true -> bbox b = None ->
  merge_text_blocks blocks thr = Raise (KeyError "bbox").
Proof.
  intros Hin Ht Hb.
  unfold merge_text_blocks, sorted_text_blocks, py_sorted.
  rewrite (keys_fail_without_bbox _ b); [reflexivity| |exact Hb].
  apply filter_In. now split.
Qed.

Lemma merge_text_blocks_missing_bbox_witness :
  merge_text_blocks [raw upper_block; mkBlock (Some 0%Z) None (Some [])] 15
  = Raise (KeyError "bbox").
Proof.
  apply (merge_text_blocks_missing_bbox _ (mkBlock (Some 0%Z) None (Some []))).
  - right. left. reflexivity.
  - reflexivity.
  - reflexivity.
Defined.

(** X8: the two keys are not treated alike.  For two text blocks in sort
    order that satisfy the merge test, a missing 'lines' on the upper block
    (the one merged into) raises KeyError 'lines', while a missing 'lines' on
    the lower block counts as no lines and the merge succeeds. *)
Theorem merge_text_blocks_missing_lines (r1 r2 : Rect) (l : list Line) (thr : Q) :
  y0 r1 <= y0 r2 ->
  y0 r2 - y1 r1 <= thr ->
  Qabs (x0 r2 - x0 r1) < 5 ->
  merge_text_blocks [mkBlock (Some 0%Z) (Some r1) None;
                     mkBlock (Some 0%Z) (Some r2) (Some l)] thr
  = Raise (KeyError "lines")
  /\ merge_text_blocks [mkBlock (Some 0%Z) (Some r1) (Some l);
                        mkBlock (Some 0%Z) (Some r2) None] thr
     = Ok [mkBlock (Some 0%Z) (Some (rect_union r1 r2)) (Some (l ++ []))].
Proof.
  intros Hy Hgap Hx.
  apply Qlt_bool_false in Hy. apply Qle_bool_iff in Hgap.
  apply Qlt_bool_iff in Hx.
  unfold merge_text_blocks, sorted_text_blocks, py_sorted.
  split;
    cbn [mapM filter type_is btype bbox lines Z.eqb Pos.eqb rbind top_key item
         map snd fst sort_keyed fold_right insert_keyed y0];
    rewrite Hy;
    cbn [map snd foldM merge_step bbox lines btype item rbind];
    rewrite Hgap, Hx; reflexivity.
Qed.

Lemma merge_text_blocks_missing_lines_witness :
  merge_text_blocks [mkBlock (Some 0%Z) (Some (mkRect 50 100 300 150)) None;
                     mkBlock (Some 0%Z) (Some (mkRect 52 160 300 210))
                             (Some [lower_line])] 15
  = Raise (KeyError "lines")
  /\ merge_text_blocks [mkBlock (Some 0%Z) (Some (mkRect 50 100 300 150))
                                (Some [lower_line]);
                        mkBlock (Some 0%Z) (Some (mkRect 52 160 300 210)) None] 15
     = Ok [mkBlock (Some 0%Z)
                   (Some (rect_union (mkRect 50 100 300 150)
                                     (mkRect 52 160 300 210)))
                   (Some ([lower_line] ++ []))].
Proof.
  apply (merge_text_blocks_missing_lines
           (mkRect 50 100 300 150) (mkRect 52 160 300 210) [lower_line] 15).
  - cbn; lra.
  - cbn; lra.
  - vm_compute. reflexivity.
Defined.

Lemma reference_fold_length (thr : Q) (rest : list TextBlock) :
  forall cur,
    (1 <= List.length (reference_fold thr cur rest) <= S (List.length rest))%nat.
Proof.
  induction rest as [|next rest IH]; intro cur; cbn [reference_fold List.length].
  - lia.
  - destruct (mergeable thr cur next).
    + specialize (IH (mkTextBlock (rect_union (tb_bbox cur) (tb_bbox next))
                                  (tb_lines cur ++ tb_lines next))). lia.
    + specialize (IH next). cbn [List.length]. lia.
Qed.

Lemma reference_merge_length (tbs : list TextBlock) (thr : Q) :
  (List.length (reference_merge tbs thr) <= List.length tbs)%nat
  /\ (reference_merge tbs thr = [] <-> tbs = []).
Proof.
  pose proof (Permutation_length (reference_sort_perm tbs)) as L.
  unfold reference_merge.
  destruct (reference_sort tbs) as [|first rest] eqn:E.
  - destruct tbs; [|discriminate L]. cbn. split; [lia | tauto].
  - pose proof (reference_fold_length thr rest first) as F.
    cbn [List.length] in L. split; [lia|].
    split.
    + intro H. apply (f_equal (@List.length _)) in H. cbn in H. lia.
    + intros ->. discriminate L.
Qed.

(** X9: merging never makes more blocks than the input has text blocks, and
    never loses all of them: when every text block has a rectangle and lines,
    the output has at most as many blocks as the input has blocks of type 0,
    and it is empty exactly when the input has none (an input of image blocks
    alone gives the empty list). *)
Theorem merge_text_blocks_length (blocks : list Block) (thr : Q) :
  Forall has_bbox_and_lines blocks ->
  exists out,
    merge_text_blocks blocks thr = Ok out
    /\ (List.length out
        <= List.length (filter (fun b => type_is b 0) blocks)
        <= List.length blocks)%nat
    /\ (out = [] <-> filter (fun b => type_is b 0) blocks = []).
Proof.
  intro H. destruct (text_blocks_are_raw blocks H) as (tbs & E).
  exists (map raw (reference_merge tbs thr)).
  rewrite <- (merge_text_blocks_of_text_blocks blocks), E.
  split; [apply merge_text_blocks_reference|].
  destruct (reference_merge_length tbs thr) as (L & Z).
  pose proof (filter_length_le (fun b => type_is b 0) blocks) as F.
  rewrite E in F. rewrite !length_map in *. split; [lia|].
  split.
  - intro M. apply map_eq_nil in M. apply Z in M. now subst tbs.
  - intro M. apply map_eq_nil in M. apply Z in M. now rewrite M.
Qed.

Lemma merge_text_blocks_length_witness :
  exists out,
    merge_text_blocks
      [mkBlock (Some 1%Z) (Some (mkRect 200 325 400 475)) None;
       raw upper_block; raw lower_block] 15
    = Ok out
    /\ (List.length out
        <= List.length
             (filter (fun b => type_is b 0)
                [mkBlock (Some 1%Z) (Some (mkRect 200 325 400 475)) None;
                 raw upper_block; raw lower_block])
        <= List.length
             [mkBlock (Some 1%Z) (Some (mkRect 200 325 400 475)) None;
              raw upper_block; raw lower_block])%nat
    /\ (out = []
        <-> filter (fun b => type_is b 0)
              [mkBlock (Some 1%Z) (Some (mkRect 200 325 400 475)) None;
               raw upper_block; raw lower_block] = []).
Proof.
  apply (merge_text_blocks_length
           [mkBlock (Some 1%Z) (Some (mkRect 200 325 400 475)) None;
            raw upper_block; raw lower_block] 15).
  constructor; [intro H; discriminate H|].
  constructor; [intros _; split; discriminate|].
  constructor; [intros _; split; discriminate|].
  constructor.
Defined.

Lemma py_min_keeps_first (a b : Q) : a <= b -> py_min a b = a.
Proof.
  intro H. unfold py_min. apply Qlt_bool_false in H. now rewrite H.
Qed.

Lemma reference_fold_ascending (thr : Q) (rest : list TextBlock) :
  forall cur,
    Forall (fun b => top cur <= top b) rest ->
    StronglySorted (fun a b => top a <= top b) rest ->
    StronglySorted (fun a b => top a <= top b) (reference_fold thr cur rest)
    /\ Forall (fun o => top cur <= top o) (reference_fold thr cur rest).
Proof.
  induction rest as [|next rest IH]; intros cur Hcur Hs; cbn [reference_fold].
  - split; repeat constructor. apply Qle_refl.
  - inversion Hcur as [|? ? Hn Hr]; subst.
    inversion Hs as [|? ? Hs' Hnext]; subst.
    destruct (mergeable thr cur next).
    + set (acc := mkTextBlock (rect_union (tb_bbox cur) (tb_bbox next))
                              (tb_lines cur ++ tb_lines next)).
      assert (E : top acc = top cur)
        by (unfold top in *; cbn; now apply py_min_keeps_first).
      destruct (IH acc) as (S1 & F1); [now rewrite E | exact Hs' |].
      split; [exact S1 | now rewrite E in F1].
    + destruct (IH next Hnext Hs') as (S1 & F1).
      assert (F2 : Forall (fun o => top cur <= top o) (reference_fold thr next rest)).
      { apply Forall_forall. intros o Ho.
        pose proof (proj1 (Forall_forall _ _) F1 o Ho) as H1.
        cbn beta in H1. lra. }
      split; constructor; try assumption. apply Qle_refl.
Qed.

(** X10: the output blocks come in ascending order of their top edge. *)
Theorem merge_text_blocks_output_ascending (tbs : list TextBlock) (thr : Q) :
  exists out,
    merge_text_blocks (map raw tbs) thr = Ok (map raw out)
    /\ StronglySorted (fun a b => top a <= top b) out.
Proof.
  exists (reference_merge tbs thr).
  split; [apply merge_text_blocks_reference|].
  unfold reference_merge.
  pose proof (reference_sort_sorted tbs) as S.
  destruct (reference_sort tbs) as [|first rest]; [constructor|].
  inversion S as [|? ? Sr Hf]; subst.
  apply (reference_fold_ascending thr rest first Hf Sr).
Qed.

Lemma covers_refl (r : Rect) : covers r r.
Proof. unfold covers. repeat split; apply Qle_refl. Qed.

Lemma covers_trans (a b c : Rect) : covers a b -> covers b c -> covers a c.
Proof. unfold covers. intros (?&?&?&?) (?&?&?&?). repeat split; lra. Qed.

Lemma rect_union_covers (a b : Rect) :
  covers (rect_union a b) a /\ covers (rect_union a b) b.
Proof.
  unfold covers, rect_union; cbn [x0 y0 x1 y1].
  destruct (py_min_cases (x0 a) (x0 b)) as [[? ->]|[? ->]];
  destruct (py_min_cases (y0 a) (y0 b)) as [[? ->]|[? ->]];
  destruct (py_max_cases (x1 a) (x1 b)) as [[? ->]|[? ->]];
  destruct (py_max_cases (y1 a) (y1 b)) as [[? ->]|[? ->]];
  repeat split; lra.
Qed.

Lemma reference_fold_covers (thr : Q) (rest : list TextBlock) :
  forall cur b,
    In b (cur :: rest) ->
    exists o,
      In o (reference_fold thr cur rest)
      /\ covers (tb_bbox o) (tb_bbox b)
      /\ incl (tb_lines b) (tb_lines o).
Proof.
  induction rest as [|next rest IH]; intros cur b Hb; cbn [reference_fold].
  - destruct Hb as [<-|[]]. exists cur.
    split; [now left|]. split; [apply covers_refl | apply incl_refl].
  - destruct (mergeable thr cur next).
    + set (acc := mkTextBlock (rect_union (tb_bbox cur) (tb_bbox next))
                              (tb_lines cur ++ tb_lines next)).
      destruct (rect_union_covers (tb_bbox cur) (tb_bbox next)) as (Cc & Cn).
      destruct (IH acc acc (or_introl eq_refl)) as (o & Ho & Co & Lo).
      destruct Hb as [<-|[<-|Hb]].
      * exists o. split; [exact Ho|]. split.
        -- apply (covers_trans _ _ _ Co Cc).
        -- intros x Hx. apply Lo. cbn. apply in_or_app. now left.
      * exists o. split; [exact Ho|]. split.
        -- apply (covers_trans _ _ _ Co Cn).
        -- intros x Hx. apply Lo. cbn. apply in_or_app. now right.
      * apply (IH acc b). now right.
    + destruct Hb as [<-|Hb].
      * exists cur. split; [now left|].
        split; [apply covers_refl | apply incl_refl].
      * destruct (IH next b Hb) as (o & Ho & Co & Lo).
        exists o. split; [now right|]. now split.
Qed.

(** X11: every input block ends up inside an output block: some output
    block's rectangle covers the input block's rectangle and its lines
    include the input block's lines. *)
Theorem merge_text_blocks_covers_input (tbs : list TextBlock) (thr : Q)
  (b : TextBlock) :
  In b tbs ->
  exists out o,
    merge_text_blocks (map raw tbs) thr = Ok (map raw out)
    /\ In o out
    /\ covers (tb_bbox o) (tb_bbox b)
    /\ incl (tb_lines b) (tb_lines o).
Proof.
  intro Hb.
  apply (Permutation_in _ (reference_sort_perm tbs)) in Hb.
  assert (exists o, In o (reference_merge tbs thr)
                    /\ covers (tb_bbox o) (tb_bbox b)
                    /\ incl (tb_lines b) (tb_lines o))
    as (o & Ho & Co & Lo).
  { unfold reference_merge.
    destruct (reference_sort tbs) as [|first rest]; [destruct Hb|].
    now apply reference_fold_covers. }
  exists (reference_merge tbs thr), o.
  split; [apply merge_text_blocks_reference|].
  split; [exact Ho|]. split; [exact Co | exact Lo].
Qed.

Lemma merge_text_blocks_covers_input_witness :
  exists out o,
    merge_text_blocks (map raw [upper_block; lower_block]) 15 = Ok (map raw out)
    /\ In o out
    /\ covers (tb_bbox o) (tb_bbox lower_block)
    /\ incl (tb_lines lower_block) (tb_lines o).
Proof.
  apply (merge_text_blocks_covers_input [upper_block; lower_block] 15 lower_block).
  right. left. reflexivity.
Defined.

Lemma sort_keyed_of_ascending {A} (l : list (Q * A)) :
  keys_ascending l -> sort_keyed l = l.
Proof.
  unfold keys_ascending.
  induction 1 as [|x t St IH Hx]; [reflexivity|].
  cbn [sort_keyed fold_right]. fold (sort_keyed t). rewrite IH.
  destruct t as [|y t']; [reflexivity|].
  cbn [insert_keyed].
  inversion Hx as [|? ? Hxy _]; subst.
  apply Qlt_bool_false in Hxy. now rewrite Hxy.
Qed.

Lemma reference_sort_of_ascending (tbs : list TextBlock) :
  StronglySorted (fun a b => top a <= top b) tbs -> reference_sort tbs = tbs.
Proof.
  intro S. unfold reference_sort.
  rewrite sort_keyed_of_ascending.
  - rewrite map_map. cbn. apply map_id.
  - unfold keys_ascending.
    induction S as [|x t St IH Hx]; cbn [map]; constructor; [exact IH|].
    apply Forall_forall. intros p Hp. apply in_map_iff in Hp.
    destruct Hp as (tb & <- & Htb). cbn.
    exact (proj1 (Forall_forall _ _) Hx tb Htb).
Qed.

(** X12: the lines of the output, read block after block, are the lines of
    the sorted input read block after block; for an input already in
    ascending order of the top edge they are the input's lines in the
    input's order. *)
Theorem merge_text_blocks_line_order (tbs : list TextBlock) (thr : Q) :
  (exists s out,
     sorted_text_blocks (map raw tbs) = Ok s
     /\ merge_text_blocks (map raw tbs) thr = Ok out
     /\ all_lines out = all_lines s)
  /\ (StronglySorted (fun a b => top a <= top b) tbs ->
      exists out,
        merge_text_blocks (map raw tbs) thr = Ok out
        /\ all_lines out = flat_map tb_lines tbs).
Proof.
  split.
  - exists (map raw (reference_sort tbs)), (map raw (reference_merge tbs thr)).
    split; [apply sorted_text_blocks_raw|].
    split; [apply merge_text_blocks_reference|].
    now rewrite !all_lines_raw, reference_merge_lines.
  - intro S. exists (map raw (reference_merge tbs thr)).
    split; [apply merge_text_blocks_reference|].
    now rewrite all_lines_raw, reference_merge_lines,
      (reference_sort_of_ascending tbs S).
Qed.

Lemma merge_text_blocks_line_order_witness :
  exists out,
    merge_text_blocks (map raw [upper_block; lower_block]) 15 = Ok out
    /\ all_lines out = flat_map tb_lines [upper_block; lower_block].
Proof.
  apply (proj2 (merge_text_blocks_line_order [upper_block; lower_block] 15)).
  repeat constructor. cbn. lra.
Defined.

(** ** More on extract_images_with_bboxes *)

Lemma extract_one_cases (page : Page) (x : Z) :
  extract_one page x = []
  \/ exists b,
       extract_one page x = [mkImageRef x b]
       /\ get_image_bbox page x = Ok b
       /\ 10 <= width b /\ 10 <= height b /\ ~ background b (page_rect page).
Proof.
  destruct (get_image_bbox page x) as [b|e] eqn:Hb.
  - destruct (extract_one_resolved page x b Hb) as [(E & H)|(E & _)].
    + right. exists b. now split.
    + now left.
  - left. unfold extract_one. now rewrite Hb.
Qed.

(** X13: the result lists the retained images in the page's image order,
    at most one entry per image reference, and every entry carries the
    rectangle that page.get_image_bbox returned for its xref, at least 10
    wide and high and not a background rectangle. *)
Theorem extract_images_in_page_order (page : Page) :
  (exists keep : Z -> bool,
     map xref (extract_images_with_bboxes page) = filter keep (get_images page))
  /\ Forall (fun im =>
               get_image_bbox page (xref im) = Ok (image_bbox im)
               /\ 10 <= width (image_bbox im) /\ 10 <= height (image_bbox im)
               /\ ~ background (image_bbox im) (page_rect page))
            (extract_images_with_bboxes page).
Proof.
  rewrite extract_images_flat_map. split.
  - exists (fun x => match extract_one page x with [] => false | _ => true end).
    induction (get_images page) as [|x t IH]; [reflexivity|].
    cbn [flat_map filter]. rewrite map_app, IH.
    destruct (extract_one_cases page x) as [->|(b & -> & _)]; reflexivity.
  - apply Forall_forall. intros im Him.
    apply in_flat_map in Him. destruct Him as (x & _ & Hx).
    destruct (extract_one_cases page x) as [E|(b & E & H)];
      rewrite E in Hx; [destruct Hx|].
    destruct Hx as [<-|[]]. exact H.
Qed.

(** X14: an image placed exactly on the page rectangle is never retained,
    whatever the page size: it is too small or a full-width band aligned with
    the top edge. *)
Theorem extract_images_drops_full_page_image (page : Page) (im : ImageRef) :
  In im (extract_images_with_bboxes page) ->
  ~ rect_eq (image_bbox im) (page_rect page).
Proof.
  rewrite extract_images_flat_map. intros Him (Ex0 & Ey0 & Ex1 & Ey1).
  apply in_flat_map in Him. destruct Him as (x & _ & Hx).
  destruct (extract_one_cases page x) as [E|(b & E & _ & Hw & _ & Hn)];
    rewrite E in Hx; [destruct Hx|].
  destruct Hx as [<-|[]]. cbn [image_bbox] in *.
  apply Hn. unfold background, aligned. left.
  unfold width in *.
  destruct (py_max_cases 0 (x1 b - x0 b)) as [[? Eb]|[? Eb]];
    rewrite Eb in *;
  destruct (py_max_cases 0 (x1 (page_rect page) - x0 (page_rect page)))
    as [[? Ep]|[? Ep]]; rewrite Ep; split; try lra;
  left; apply Qabs_case; intro; lra.
Qed.

Lemma extract_images_drops_full_page_image_witness :
  ~ rect_eq (image_bbox (mkImageRef 7 (mkRect 200 325 400 475)))
            (page_rect (page_with_image (mkRect 200 325 400 475))).
Proof.
  apply (extract_images_drops_full_page_image
           (page_with_image (mkRect 200 325 400 475))
           (mkImageRef 7 (mkRect 200 325 400 475))).
  vm_compute. left. reflexivity.
Defined.

(** ** Traces and outcomes of loops *)

Lemma for_each_outcome {A} (l : list A) (body : A -> M unit) :
  outcome (for_each l body) = Ok tt
  <-> Forall (fun a => outcome (body a) = Ok tt) l.
Proof.
  induction l as [|a t IH]; cbn [for_each].
  - split; [constructor | reflexivity].
  - rewrite outcome_mbind.
    destruct (outcome (body a)) as [[]|e] eqn:E; cbn [rbind].
    + rewrite IH. split; [now constructor | now inversion 1].
    + split; [discriminate|]. inversion 1; subst. congruence.
Qed.

Lemma for_each_trace {A} (l : list A) (body : A -> M unit) :
  outcome (for_each l body) = Ok tt ->
  trace (for_each l body) = flat_map (fun a => trace (body a)) l.
Proof.
  induction l as [|a t IH]; cbn [for_each flat_map]; [reflexivity|].
  rewrite outcome_mbind, trace_mbind.
  destruct (outcome (body a)) as [[]|e]; cbn [rbind]; [|discriminate].
  intro H. now rewrite (IH H).
Qed.

Lemma Forall_trace_mbind {A B} (P : Effect -> Prop) (m : M A) (f : A -> M B) :
  Forall P (trace m) -> (forall a, Forall P (trace (f a))) ->
  Forall P (trace (mbind m f)).
Proof.
  intros Hm Hf. rewrite trace_mbind. apply Forall_app. split; [exact Hm|].
  destruct (outcome m); [apply Hf | constructor].
Qed.

Lemma Forall_trace_for_each {A} (P : Effect -> Prop) (l : list A)
  (body : A -> M unit) :
  (forall a, Forall P (trace (body a))) -> Forall P (trace (for_each l body)).
Proof.
  intro Hb. induction l as [|a t IH]; cbn [for_each]; [constructor|].
  apply Forall_trace_mbind; [apply Hb | intros _; exact IH].
Qed.

(** ** More on process_pdf *)

Lemma redraw_span_on_page (i : nat) (s : Span) :
  Forall (on_page i) (trace (redraw_span i s)).
Proof.
  unfold redraw_span.
  destruct (strip (get_or (text s) EmptyString)) as [|c rest]; [constructor|].
  destruct (origin s) as [[x y]|]; [|constructor].
  destruct (span_bbox s) as [sb|]; [|constructor].
  cbn. repeat constructor; cbn; try reflexivity; try discriminate;
    try (now left).
Qed.

Lemma text_layer_on_page (i : nat) (blocks : list Block) :
  Forall (on_page i) (trace (text_layer i blocks)).
Proof.
  unfold text_layer. apply Forall_trace_for_each. intro b.
  destruct (type_is b 0), (bbox b) as [r|]; try constructor.
  destruct (Qlt_bool (height r) 5 || Qlt_bool (width r) 10); [constructor|].
  apply Forall_trace_mbind.
  - constructor; [|constructor]. repeat split. now left.
  - intros _. apply Forall_trace_for_each. intro line.
    apply Forall_trace_for_each. apply redraw_span_on_page.
Qed.

Lemma insert_first_image_on_page (i : nat) (page : Page) (r : Rect)
  (images : list Z) :
  Forall (on_page i) (trace (insert_first_image i page r images)).
Proof.
  induction images as [|x rest IH]; cbn [insert_first_image]; [constructor|].
  destruct (insert_image_error page r x) as [msg|].
  - apply Forall_trace_mbind; [|intros _; exact IH].
    constructor; [|constructor]. repeat split. right. now eexists.
  - constructor; [|constructor]. repeat split. now left.
Qed.

Lemma image_layer_on_page (i : nat) (page : Page) (blocks : list Block)
  (images : list Z) :
  Forall (on_page i) (trace (image_layer i page blocks images)).
Proof.
  unfold image_layer. apply Forall_trace_for_each. intro b.
  destruct (type_is b 1), (bbox b) as [r|]; try constructor.
  apply Forall_trace_mbind.
  - constructor; [|constructor]. repeat split. now left.
  - intros _. apply insert_first_image_on_page.
Qed.

Lemma rewrite_page_unfold (i : nat) (page : Page) :
  trace (rewrite_page i page)
  = DrawRect i (page_rect page) (Some white) (Some white) 1 true
    :: trace (image_layer i page (text_dict_blocks page) (get_images page)
              ;;; text_layer i (text_dict_blocks page)).
Proof. unfold rewrite_page. rewrite trace_mbind. reflexivity. Qed.

(** X15: the rewriting of a page starts by filling the page rectangle with
    white, and everything after it is a drawing on that same page or a
    printed line. *)
Theorem rewrite_page_erases_first (i : nat) (page : Page) :
  exists rest,
    trace (rewrite_page i page)
    = DrawRect i (page_rect page) (Some white) (Some white) 1 true :: rest
    /\ Forall (fun e => effect_page e = Some i \/ exists s, e = Printed s) rest.
Proof.
  eexists. split; [apply rewrite_page_unfold|].
  assert (H : Forall (on_page i)
                (trace (image_layer i page (text_dict_blocks page) (get_images page)
                        ;;; text_layer i (text_dict_blocks page)))).
  { apply Forall_trace_mbind; [apply image_layer_on_page|].
    intros _. apply text_layer_on_page. }
  eapply Forall_impl; [|exact H]. intros e (_ & _ & He). exact He.
Qed.

Lemma rewrite_page_on_page (i : nat) (page : Page) :
  Forall (on_page i) (trace (rewrite_page i page)).
Proof.
  rewrite rewrite_page_unfold. constructor.
  - repeat split. now left.
  - apply Forall_trace_mbind; [apply image_layer_on_page|].
    intros _. apply text_layer_on_page.
Qed.

Lemma rewrite_pages_on_pages (ps : list Page) :
  forall k,
    Forall (fun e => exists j, (k <= j < k + List.length ps)%nat /\ on_page j e)
           (trace (rewrite_pages k ps)).
Proof.
  induction ps as [|p rest IH]; intro k; cbn [rewrite_pages]; [constructor|].
  apply Forall_trace_mbind.
  - eapply Forall_impl; [|apply rewrite_page_on_page].
    intros e He. exists k. split; [cbn; lia | exact He].
  - intros _. eapply Forall_impl; [|apply (IH (S k))].
    intros e (j & Hj & He). exists j. split; [cbn; lia | exact He].
Qed.

Lemma process_pdf_unfold (fo : string -> result Doc) (path : string)
  (doc : Doc) (g t : Q) :
  fo path = Ok doc ->
  process_pdf fo path g t
  = match rewrite_pages 0 (pages doc) with
    | (drawing, Ok _) =>
      match save_outcome doc path (pdf_output_path path) with
      | None =>
        (drawing ++ [Save (pdf_output_path path);
                     Printed ("Processed and saved: " ++ pdf_output_path path)],
         Ok tt)
      | Some e => (drawing ++ [Save (pdf_output_path path)], Raise e)
      end
    | (drawing, Raise e) => (drawing, Raise e)
    end.
Proof.
  intro H. unfold process_pdf, pdf_output_path, save_with, lift. rewrite H.
  cbn [mbind emit mret].
  destruct (rewrite_pages 0 (pages doc)) as [drawing [[]|e]]; [|reflexivity].
  destruct (save_outcome doc path _); reflexivity.
Qed.

(** X16: whatever the document, process_pdf paints in one style only: every
    filled rectangle is filled white, and every text is drawn in black
    Helvetica and is not blank. *)
Theorem process_pdf_plain_style (fo : string -> result Doc) (path : string)
  (g t : Q) :
  Forall plain_style (trace (process_pdf fo path g t)).
Proof.
  destruct (fo path) as [doc|e] eqn:H.
  - rewrite (process_pdf_unfold fo path doc g t H).
    pose proof (rewrite_pages_on_pages (pages doc) 0) as P.
    assert (S : Forall plain_style (trace (rewrite_pages 0 (pages doc)))).
    { eapply Forall_impl; [|exact P]. intros e (j & _ & _ & He & _). exact He. }
    destruct (rewrite_pages 0 (pages doc)) as [drawing [[]|e]]; cbn in S;
      [|exact S].
    destruct (save_outcome doc path (pdf_output_path path));
      cbn [trace fst]; apply Forall_app; (split; [exact S|]);
      repeat constructor.
  - unfold process_pdf. rewrite H. constructor.
Qed.

Lemma process_pdf_trace_shape (fo : string -> result Doc) (path : string)
  (g t : Q) :
  match outcome (process_pdf fo path g t) with
  | Ok _ =>
    exists drawing,
      trace (process_pdf fo path g t)
      = drawing ++ [Save (pdf_output_path path);
                    Printed ("Processed and saved: " ++ pdf_output_path path)]
      /\ forallb is_drawing drawing = true
  | Raise e =>
    forallb is_drawing (trace (process_pdf fo path g t)) = true
    \/ exists drawing doc,
         fo path = Ok doc
         /\ save_outcome doc path (pdf_output_path path) = Some e
         /\ trace (process_pdf fo path g t)
            = drawing ++ [Save (pdf_output_path path)]
         /\ forallb is_drawing drawing = true
  end.
Proof.
  destruct (fo path) as [doc|e] eqn:H.
  - rewrite (process_pdf_unfold fo path doc g t H).
    pose proof (rewrite_pages_on_pages (pages doc) 0) as P.
    assert (S : forallb is_drawing (trace (rewrite_pages 0 (pages doc))) = true).
    { apply forallb_forall. intros e He.
      destruct (proj1 (Forall_forall _ _) P e He) as (j & _ & Hd & _). exact Hd. }
    destruct (rewrite_pages 0 (pages doc)) as [drawing [[]|e]]; cbn in S.
    + destruct (save_outcome doc path (pdf_output_path path)) as [e|] eqn:Es;
        cbn [outcome trace fst snd].
      * right. exists drawing, doc. now repeat split.
      * exists drawing. now split.
    + left. exact S.
  - unfold process_pdf. rewrite H. left. reflexivity.
Qed.


Lemma redraw_span_outcome (i : nat) (s : Span) :
  outcome (redraw_span i s) = Ok tt <-> span_ok s = true.
Proof.
  unfold redraw_span, span_ok, blank.
  destruct (strip (get_or (text s) EmptyString)) as [|c rest]; [now split|].
  destruct (origin s) as [[x y]|], (span_bbox s) as [sb|]; cbn;
    split; intro H; try reflexivity; discriminate H.
Qed.

Lemma redraw_span_errors (i : nat) (s : Span) (e : exn) :
  outcome (redraw_span i s) = Raise e ->
  e = TypeError "cannot unpack non-iterable NoneType object"
  \/ e = KeyError "bbox".
Proof.
  unfold redraw_span.
  destruct (strip (get_or (text s) EmptyString)) as [|c rest]; [discriminate|].
  destruct (origin s) as [[x y]|], (span_bbox s) as [sb|]; cbn;
    intro H; try discriminate H; injection H as <-; auto.
Qed.

Lemma for_each_raises {A} (l : list A) (body : A -> M unit) (e : exn) :
  outcome (for_each l body) = Raise e ->
  exists a, In a l /\ outcome (body a) = Raise e.
Proof.
  induction l as [|a t IH]; cbn [for_each]; [discriminate|].
  rewrite outcome_mbind.
  destruct (outcome (body a)) as [[]|e'] eqn:E; cbn [rbind]; intro H.
  - destruct (IH H) as (b & Hb & Eb). exists b. split; [now right | exact Eb].
  - injection H as <-. exists a. split; [now left | exact E].
Qed.

Lemma text_block_outcome (i : nat) (b : Block) :
  outcome
    (match type_is b 0, bbox b with
     | true, Some r =>
       if Qlt_bool (height r) 5 || Qlt_bool (width r) 10 then mret tt
       else
         let inset_r :=
           mkRect (x0 r + margin) (y0 r + margin) (x1 r - margin) (y1 r - margin) in
         emit (DrawRect i inset_r (Some (9 # 10, 9 # 10, 9 # 10)) None (1 # 2) true) ;;;
         for_each (get_or (lines b) []) (fun line =>
           for_each (get_or (spans line) []) (redraw_span i))
     | _, _ => mret tt
     end) = Ok tt
  <-> block_ok b = true.
Proof.
  unfold block_ok, redrawn, block_spans.
  destruct (type_is b 0), (bbox b) as [r|]; try (now split).
  destruct (Qlt_bool (height r) 5 || Qlt_bool (width r) 10); [now split|].
  cbv zeta. rewrite outcome_mbind. cbn [outcome emit snd rbind].
  rewrite for_each_outcome, forallb_forall, Forall_forall.
  split.
  - intros H s Hs. apply in_flat_map in Hs. destruct Hs as (line & Hl & Hs).
    specialize (H line Hl). rewrite for_each_outcome, Forall_forall in H.
    apply (redraw_span_outcome i). now apply H.
  - intros H line Hl. rewrite for_each_outcome, Forall_forall.
    intros s Hs. apply redraw_span_outcome, H, in_flat_map.
    exists line. now split.
Qed.

Lemma text_layer_outcome (i : nat) (blocks : list Block) :
  outcome (text_layer i blocks) = Ok tt <-> forallb block_ok blocks = true.
Proof.
  unfold text_layer. rewrite for_each_outcome, forallb_forall, Forall_forall.
  split; intros H b Hb; apply (text_block_outcome i b), H, Hb.
Qed.

Lemma rewrite_pages_outcome_ok (ps : list Page) :
  forall k,
    outcome (rewrite_pages k ps) = Ok tt
    <-> Forall (fun p => forallb block_ok (text_dict_blocks p) = true) ps.
Proof.
  induction ps as [|p rest IH]; intro k; cbn [rewrite_pages].
  - split; [constructor | reflexivity].
  - rewrite outcome_mbind, rewrite_page_outcome.
    destruct (outcome (text_layer k (text_dict_blocks p))) as [[]|e] eqn:E;
      cbn [rbind].
    + rewrite IH. apply text_layer_outcome in E.
      split; [now constructor | now inversion 1].
    + split; [discriminate|]. inversion 1; subst.
      assert (outcome (text_layer k (text_dict_blocks p)) = Ok tt)
        by now apply text_layer_outcome.
      congruence.
Qed.

(** X18: a PDF that opens is converted without an exception exactly when
    every span of every redrawn text block either is blank after stripping
    or has both an origin and a rectangle, and the save to the computed path
    does not raise (which it does when that path is the input path).  Image
    blocks, small blocks and blocks without a rectangle never make it
    fail. *)
Theorem process_pdf_succeeds_iff (fo : string -> result Doc) (path : string)
  (doc : Doc) (g t : Q) :
  fo path = Ok doc ->
  (outcome (process_pdf fo path g t) = Ok tt
   <-> Forall (fun p => forallb block_ok (text_dict_blocks p) = true) (pages doc)
       /\ save_outcome doc path (pdf_output_path path) = None).
Proof.
  intro H. rewrite (process_pdf_unfold fo path doc g t H).
  rewrite <- (rewrite_pages_outcome_ok (pages doc) 0).
  destruct (rewrite_pages 0 (pages doc)) as [drawing [[]|e]];
    [destruct (save_outcome doc path (pdf_output_path path))|];
    cbn [outcome snd]; split; try (intros (E & E')); try intro E;
    try split; try reflexivity; try discriminate.
Qed.

Lemma process_pdf_succeeds_iff_witness :
  outcome (process_pdf (fun _ => Ok two_block_doc) "in.pdf" 10 15) = Ok tt
  <-> Forall (fun p => forallb block_ok (text_dict_blocks p) = true)
             (pages two_block_doc)
      /\ save_outcome two_block_doc "in.pdf" (pdf_output_path "in.pdf") = None.
Proof.
  apply (process_pdf_succeeds_iff (fun _ => Ok two_block_doc) "in.pdf"%string
                                  two_block_doc 10 15).
  reflexivity.
Defined.

Lemma rewrite_pages_errors (ps : list Page) (e : exn) :
  forall k,
    outcome (rewrite_pages k ps) = Raise e ->
    e = TypeError "cannot unpack non-iterable NoneType object"
    \/ e = KeyError "bbox".
Proof.
  induction ps as [|p rest IH]; intro k; cbn [rewrite_pages]; [discriminate|].
  rewrite outcome_mbind, rewrite_page_outcome.
  destruct (outcome (text_layer k (text_dict_blocks p))) as [[]|e'] eqn:E;
    cbn [rbind]; intro H; [now apply (IH (S k))|].
  injection H as <-. unfold text_layer in E.
  apply for_each_raises in E. destruct E as (b & _ & E).
  destruct (type_is b 0), (bbox b) as [r|]; try discriminate E.
  destruct (Qlt_bool (height r) 5 || Qlt_bool (width r) 10); [discriminate E|].
  cbv zeta in E. rewrite outcome_mbind in E. cbn [outcome emit snd rbind] in E.
  apply for_each_raises in E. destruct E as (line & _ & E).
  apply for_each_raises in E. destruct E as (s & _ & E).
  now apply (redraw_span_errors k s).
Qed.

(** X19: an exception process_pdf ends with is the one raised by opening the
    file, the TypeError of a span without an origin, the KeyError of a span
    without a rectangle, or the one raised by doc.save; handling images never
    contributes one. *)
Theorem process_pdf_errors (fo : string -> result Doc) (path : string)
  (g t : Q) (e : exn) :
  outcome (process_pdf fo path g t) = Raise e ->
  fo path = Raise e
  \/ e = TypeError "cannot unpack non-iterable NoneType object"
  \/ e = KeyError "bbox"
  \/ exists doc,
       fo path = Ok doc
       /\ save_outcome doc path (pdf_output_path path) = Some e.
Proof.
  destruct (fo path) as [doc|e'] eqn:H.
  - rewrite (process_pdf_unfold fo path doc g t H).
    pose proof (rewrite_pages_errors (pages doc) e 0) as R.
    destruct (rewrite_pages 0 (pages doc)) as [drawing [[]|e']].
    + destruct (save_outcome doc path (pdf_output_path path)) as [e'|] eqn:Es;
        cbn [outcome snd]; intro E; [|discriminate E].
      injection E as ->. right. right. right. exists doc. now split.
    + cbn [outcome snd] in *. intro E. right.
      destruct (R E) as [R'|R']; [now left | right; now left].
  - unfold process_pdf. rewrite H. cbn. intro E. injection E as ->. now left.
Qed.

Lemma process_pdf_errors_witness :
  (fun _ : string => Ok (mkDoc [] (fun _ => None))) "REPORT.PDF"%string
  = Raise (ValueError "save to original must be incremental")
  \/ ValueError "save to original must be incremental"
     = TypeError "cannot unpack non-iterable NoneType object"
  \/ ValueError "save to original must be incremental" = KeyError "bbox"
  \/ exists doc,
       (fun _ : string => Ok (mkDoc [] (fun _ => None))) "REPORT.PDF"%string
       = Ok doc
       /\ save_outcome doc "REPORT.PDF" (pdf_output_path "REPORT.PDF")
          = Some (ValueError "save to original must be incremental").
Proof.
  apply (process_pdf_errors (fun _ => Ok (mkDoc [] (fun _ => None)))
                            "REPORT.PDF"%string 20 30
                            (ValueError "save to original must be incremental")).
  reflexivity.
Defined.

Lemma outlines_app (a b : list Effect) :
  outlines (a ++ b) = outlines a ++ outlines b.
Proof.
  induction a as [|e a IH]; [reflexivity|].
  destruct e as [j r [c|] [f|] w o| | | | |]; cbn; try exact IH.
  destruct (Qeq_bool w (1 # 2)); cbn; now rewrite IH.
Qed.

Lemma outlines_for_each_none {A} (l : list A) (body : A -> M unit) :
  (forall a, outlines (trace (body a)) = []) ->
  outlines (trace (for_each l body)) = [].
Proof.
  intro H. induction l as [|a t IH]; cbn [for_each]; [reflexivity|].
  rewrite trace_mbind, outlines_app, H.
  destruct (outcome (body a)); [exact IH | reflexivity].
Qed.

Lemma outlines_redraw_span (i : nat) (s : Span) :
  outlines (trace (redraw_span i s)) = [].
Proof.
  unfold redraw_span.
  destruct (strip (get_or (text s) EmptyString)) as [|c rest]; [reflexivity|].
  destruct (origin s) as [[x y]|], (span_bbox s) as [sb|]; reflexivity.
Qed.

Lemma outlines_insert_first_image (i : nat) (page : Page) (r : Rect)
  (images : list Z) :
  outlines (trace (insert_first_image i page r images)) = [].
Proof.
  induction images as [|x rest IH]; cbn [insert_first_image]; [reflexivity|].
  destruct (insert_image_error page r x); [|reflexivity].
  rewrite trace_mbind, outlines_app. cbn [outcome emit snd trace fst].
  exact IH.
Qed.

Lemma outlines_image_layer (i : nat) (page : Page) (blocks : list Block)
  (images : list Z) :
  outlines (trace (image_layer i page blocks images)) = [].
Proof.
  unfold image_layer. apply outlines_for_each_none. intro b.
  destruct (type_is b 1), (bbox b) as [r|]; try reflexivity.
  rewrite trace_mbind, outlines_app. cbn [outcome emit snd trace fst].
  apply outlines_insert_first_image.
Qed.

Lemma outlines_text_layer (i : nat) (blocks : list Block) :
  outcome (text_layer i blocks) = Ok tt ->
  outlines (trace (text_layer i blocks))
  = map inset (flat_map (fun b => option_list (redrawn b)) blocks).
Proof.
  unfold text_layer. intro H. rewrite (for_each_trace _ _ H). clear H.
  induction blocks as [|b t IH]; [reflexivity|].
  cbn [flat_map]. rewrite outlines_app, map_app, IH. f_equal.
  unfold redrawn.
  destruct (type_is b 0), (bbox b) as [r|]; try reflexivity.
  destruct (Qlt_bool (height r) 5 || Qlt_bool (width r) 10); [reflexivity|].
  cbv zeta. rewrite trace_mbind, outlines_app. cbn [outcome emit snd trace fst].
  rewrite outlines_for_each_none; [reflexivity|].
  intro line. apply outlines_for_each_none. apply outlines_redraw_span.
Qed.

(** X20: on a page rewritten without an exception the grey outlines are, in
    block order, the rectangles of the raw text blocks that are at least 5
    high and 10 wide, each shrunk by the margin of 3 on every side; image
    blocks, smaller blocks and blocks without a rectangle get none. *)
Theorem rewrite_page_outlines (i : nat) (page : Page) :
  outcome (rewrite_page i page) = Ok tt ->
  outlines (trace (rewrite_page i page))
  = map inset (flat_map (fun b => option_list (redrawn b))
                        (text_dict_blocks page)).
Proof.
  rewrite rewrite_page_outcome. intro H.
  rewrite rewrite_page_unfold. cbn [outlines].
  rewrite trace_mbind, outlines_app, outlines_image_layer, image_layer_returns.
  now apply outlines_text_layer.
Qed.

Lemma rewrite_page_outlines_witness :
  outlines (trace (rewrite_page 0 two_block_page))
  = map inset (flat_map (fun b => option_list (redrawn b))
                        (text_dict_blocks two_block_page)).
Proof.
  apply (rewrite_page_outlines 0 two_block_page).
  vm_compute. reflexivity.
Defined.

(** X21: every image block receives the first image of the page that can be
    inserted into its rectangle: the failures before it are printed in order,
    the images after it are not tried; when no image can be inserted, every
    failure is printed and nothing is inserted. *)
Theorem insert_first_image_uses_first_insertable (i : nat) (page : Page)
  (r : Rect) :
  (forall before x after,
     (forall y, In y before -> insert_image_error page r y <> None) ->
     insert_image_error page r x = None ->
     trace (insert_first_image i page r (before ++ x :: after))
     = map (fun y => Printed ("Error inserting image: "
                              ++ get_or (insert_image_error page r y) EmptyString))
           before
       ++ [InsertImage i r x])
  /\ (forall images,
        (forall y, In y images -> insert_image_error page r y <> None) ->
        trace (insert_first_image i page r images)
        = map (fun y => Printed ("Error inserting image: "
                                 ++ get_or (insert_image_error page r y) EmptyString))
              images).
Proof.
  split.
  - intros before x after Hb Hx.
    induction before as [|y before IH]; cbn [app insert_first_image map].
    + now rewrite Hx.
    + destruct (insert_image_error page r y) as [m|] eqn:Ey.
      * rewrite trace_mbind. cbn [outcome emit snd trace fst get_or].
        rewrite IH; [reflexivity|]. intros z Hz. apply Hb. now right.
      * exfalso. apply (Hb y); [now left | exact Ey].
  - intros images Hall.
    induction images as [|y images IH]; cbn [insert_first_image map];
      [reflexivity|].
    destruct (insert_image_error page r y) as [m|] eqn:Ey.
    + rewrite trace_mbind. cbn [outcome emit snd trace fst get_or].
      rewrite IH; [reflexivity|]. intros z Hz. apply Hall. now right.
    + exfalso. apply (Hall y); [now left | exact Ey].
Qed.

Lemma insert_first_image_uses_first_insertable_witness :
  trace (insert_first_image 0 flaky_page (mkRect 200 325 400 475)
           ([3%Z] ++ 4%Z :: [5%Z]))
  = map (fun y => Printed ("Error inserting image: "
                           ++ get_or (insert_image_error
                                        flaky_page (mkRect 200 325 400 475) y)
                                     EmptyString))
        [3%Z]
    ++ [InsertImage 0 (mkRect 200 325 400 475) 4%Z].
Proof.
  apply (proj1 (insert_first_image_uses_first_insertable
                  0 flaky_page (mkRect 200 325 400 475))
               [3%Z] 4%Z [5%Z]).
  - intros y [<-|[]]. discriminate.
  - reflexivity.
Defined.

(** ** More on handle_file *)

Lemma saved_paths_app (a b : list Effect) :
  saved_paths (a ++ b) = saved_paths a ++ saved_paths b.
Proof.
  induction a as [|e a IH]; [reflexivity|].
  destruct e; cbn; now rewrite IH.
Qed.

Lemma dialogs_app (a b : list Effect) :
  dialogs (a ++ b) = dialogs a ++ dialogs b.
Proof.
  induction a as [|e a IH]; [reflexivity|].
  destruct e; cbn; now rewrite IH.
Qed.

Lemma drawing_saves_nothing (t : list Effect) :
  forallb is_drawing t = true -> saved_paths t = [] /\ dialogs t = [].
Proof.
  induction t as [|e t IH]; [now split|].
  cbn [forallb]. intro H. apply andb_true_iff in H. destruct H as (He & Ht).
  destruct e; cbn in *; try discriminate He; now apply IH.
Qed.

Lemma catch_all_one_result (m : M unit) :
  match outcome m with
  | Ok _ => List.length (saved_paths (trace m)) = 1%nat /\ dialogs (trace m) = []
  | Raise _ =>
    (List.length (saved_paths (trace m)) <= 1)%nat /\ dialogs (trace m) = []
  end ->
  outcome (catch_all m) = Ok tt
  /\ ((dialogs (trace (catch_all m)) = []
       /\ List.length (saved_paths (trace (catch_all m))) = 1%nat)
      \/ exists before title message,
           trace (catch_all m) = before ++ [ErrorDialog title message]
           /\ dialogs before = []
           /\ (List.length (saved_paths before) <= 1)%nat).
Proof.
  destruct m as [t [[]|e]]; cbn [outcome trace fst snd catch_all].
  - intros (Hs & Hd). split; [reflexivity|]. left. now split.
  - intros (Hs & Hd). split; [reflexivity|]. right.
    exists t, "Error processing file"%string, (exn_str e). now repeat split.
Qed.

Lemma save_only_one_result (open : string -> result Saver) (path out : string)
  (message : string) :
  let m := (doc <~ lift (open path) ;;
            save_with (doc out) out ;;; emit (Printed message)) in
  match outcome m with
  | Ok _ => saved_paths (trace m) = [out] /\ dialogs (trace m) = []
  | Raise _ =>
    (saved_paths (trace m) = [] \/ saved_paths (trace m) = [out])
    /\ dialogs (trace m) = []
  end.
Proof.
  unfold save_with, lift. destruct (open path) as [doc|e]; cbn.
  - destruct (doc out); cbn; split; auto.
  - split; auto.
Qed.

Lemma process_docx_one_result (open : string -> result Saver) (path : string) :
  match outcome (process_docx open path) with
  | Ok _ =>
    saved_paths (trace (process_docx open path)) = [create_output_filename path]
    /\ dialogs (trace (process_docx open path)) = []
  | Raise _ =>
    (saved_paths (trace (process_docx open path)) = []
     \/ saved_paths (trace (process_docx open path))
        = [create_output_filename path])
    /\ dialogs (trace (process_docx open path)) = []
  end.
Proof. apply save_only_one_result. Qed.

Lemma process_pptx_one_result (open : string -> result Saver) (path : string) :
  match outcome (process_pptx open path) with
  | Ok _ =>
    saved_paths (trace (process_pptx open path)) = [create_output_filename path]
    /\ dialogs (trace (process_pptx open path)) = []
  | Raise _ =>
    (saved_paths (trace (process_pptx open path)) = []
     \/ saved_paths (trace (process_pptx open path))
        = [create_output_filename path])
    /\ dialogs (trace (process_pptx open path)) = []
  end.
Proof. apply save_only_one_result. Qed.

Lemma process_pdf_one_result (fo : string -> result Doc) (path : string)
  (g t : Q) :
  match outcome (process_pdf fo path g t) with
  | Ok _ =>
    saved_paths (trace (process_pdf fo path g t)) = [pdf_output_path path]
    /\ dialogs (trace (process_pdf fo path g t)) = []
  | Raise _ =>
    (saved_paths (trace (process_pdf fo path g t)) = []
     \/ saved_paths (trace (process_pdf fo path g t)) = [pdf_output_path path])
    /\ dialogs (trace (process_pdf fo path g t)) = []
  end.
Proof.
  pose proof (process_pdf_trace_shape fo path g t) as H.
  destruct (outcome (process_pdf fo path g t)).
  - destruct H as (drawing & -> & Hd).
    destruct (drawing_saves_nothing drawing Hd) as (Hs & Hg).
    rewrite saved_paths_app, dialogs_app, Hs, Hg. now split.
  - destruct H as [H|(drawing & doc & _ & _ & -> & Hd)].
    + destruct (drawing_saves_nothing _ H) as (Hs & Hg). split; auto.
    + destruct (drawing_saves_nothing drawing Hd) as (Hs & Hg).
      rewrite saved_paths_app, dialogs_app, Hs, Hg. split; auto.
Qed.

Lemma one_result_bound (m : M unit) (out : string) :
  match outcome m with
  | Ok _ => saved_paths (trace m) = [out] /\ dialogs (trace m) = []
  | Raise _ =>
    (saved_paths (trace m) = [] \/ saved_paths (trace m) = [out])
    /\ dialogs (trace m) = []
  end ->
  match outcome m with
  | Ok _ => List.length (saved_paths (trace m)) = 1%nat /\ dialogs (trace m) = []
  | Raise _ =>
    (List.length (saved_paths (trace m)) <= 1)%nat /\ dialogs (trace m) = []
  end.
Proof.
  destruct (outcome m).
  - intros (-> & ->). now split.
  - intros ([-> | ->] & ->); split; cbn; auto.
Qed.

Lemma one_result_saved (m : M unit) (out saved : string) :
  match outcome m with
  | Ok _ => saved_paths (trace m) = [out] /\ dialogs (trace m) = []
  | Raise _ =>
    (saved_paths (trace m) = [] \/ saved_paths (trace m) = [out])
    /\ dialogs (trace m) = []
  end ->
  In saved (saved_paths (trace (catch_all m))) -> saved = out.
Proof.
  destruct m as [tr [[]|e]]; cbn [outcome trace fst snd catch_all].
  - intros (-> & _) [<-|[]]. reflexivity.
  - rewrite saved_paths_app. cbn [saved_paths]. rewrite app_nil_r.
    intros ([-> | ->] & _) Hin; cbn in Hin; [contradiction|].
    destruct Hin as [<-|[]]. reflexivity.
Qed.

(** X23: handle_file never lets an exception escape, and every call ends in
    one of two ways: one file saved and no error dialog at all, or one error
    dialog, which is the last effect of the call, after at most one call of
    save (the one that raised, if any did). *)
Theorem handle_file_one_result (w : World) (file_path : string) (g t : Q) :
  outcome (handle_file w file_path g t) = Ok tt
  /\ ((dialogs (trace (handle_file w file_path g t)) = []
       /\ List.length (saved_paths (trace (handle_file w file_path g t))) = 1%nat)
      \/ exists before title message,
           trace (handle_file w file_path g t)
           = before ++ [ErrorDialog title message]
           /\ dialogs before = []
           /\ (List.length (saved_paths before) <= 1)%nat).
Proof.
  unfold handle_file.
  destruct (String.eqb _ ".docx").
  { apply catch_all_one_result.
    apply (one_result_bound _ (create_output_filename file_path)).
    apply process_docx_one_result. }
  destruct (String.eqb _ ".pptx").
  { apply catch_all_one_result.
    apply (one_result_bound _ (create_output_filename file_path)).
    apply process_pptx_one_result. }
  destruct (String.eqb _ ".pdf").
  { apply catch_all_one_result.
    apply (one_result_bound _ (pdf_output_path file_path)).
    apply process_pdf_one_result. }
  cbn. split; [reflexivity|]. right.
  eexists [], _, _. repeat split. cbn. lia.
Qed.

(** X24: for a path with the extension .docx or .pptx in any letter case,
    whatever handle_file saves goes to the path made by
    create_output_filename, which is not the input path. *)
Theorem handle_file_docx_pptx_saves_new_file (w : World) (file_path : string)
  (g t : Q) (saved : string) :
  lower (snd (splitext file_path)) = ".docx"%string
  \/ lower (snd (splitext file_path)) = ".pptx"%string ->
  In saved (saved_paths (trace (handle_file w file_path g t))) ->
  saved = create_output_filename file_path /\ saved <> file_path.
Proof.
  intros Hext Hin.
  assert (E : saved = create_output_filename file_path).
  { unfold handle_file in Hin. destruct Hext as [Hext|Hext]; rewrite Hext in Hin.
    - cbn [String.eqb Ascii.eqb Bool.eqb] in Hin.
      exact (one_result_saved _ _ _
               (process_docx_one_result (docx_open w) file_path) Hin).
    - cbn [String.eqb Ascii.eqb Bool.eqb] in Hin.
      exact (one_result_saved _ _ _
               (process_pptx_one_result (pptx_open w) file_path) Hin). }
  split; [exact E|]. subst saved. intro H.
  apply (f_equal String.length) in H.
  rewrite create_output_filename_length in H. lia.
Qed.

Lemma handle_file_docx_pptx_saves_new_file_witness :
  "REPORT-Accessible-Copy.DOCX"%string = create_output_filename "REPORT.DOCX"
  /\ "REPORT-Accessible-Copy.DOCX"%string <> "REPORT.DOCX"%string.
Proof.
  apply (handle_file_docx_pptx_saves_new_file
           empty_pdf_world "REPORT.DOCX"%string 20 30).
  - left. reflexivity.
  - left. reflexivity.
Defined.

(** ** Failures on single images *)

Lemma extract_images_without_unresolved (page : Page) (before : list Z) (x : Z)
  (after : list Z) (e : exn) :
  get_image_bbox page x = Raise e ->
  extract_images_with_bboxes (with_images page (before ++ x :: after))
  = extract_images_with_bboxes (with_images page before)
    ++ extract_images_with_bboxes (with_images page after).
Proof.
  intro Hx.
  rewrite !extract_images_flat_map. cbn [with_images get_images].
  rewrite flat_map_app. cbn [flat_map].
  replace (extract_one (with_images page (before ++ x :: after)) x)
    with (@nil ImageRef)
    by (unfold extract_one; cbn [with_images get_image_bbox]; now rewrite Hx).
  reflexivity.
Qed.

Lemma extract_images_keeps_the_others (page : Page) (before : list Z) (x : Z)
  (after : list Z) (y : Z) (b : Rect) :
  In y (before ++ after) ->
  get_image_bbox page y = Ok b ->
  10 <= width b -> 10 <= height b -> ~ background b (page_rect page) ->
  In (mkImageRef y b)
     (extract_images_with_bboxes (with_images page (before ++ x :: after))).
Proof.
  intros Hin Hy Hw Hh Hbg.
  rewrite extract_images_flat_map. cbn [with_images get_images].
  apply in_flat_map. exists y. split.
  - apply in_app_or in Hin. apply in_or_app.
    destruct Hin; [left | right; right]; assumption.
  - destruct (extract_one_resolved (with_images page (before ++ x :: after))
                                   y b Hy) as [(E & _)|(_ & N)].
    + rewrite E. now left.
    + exfalso. apply N. repeat split; assumption.
Qed.

Lemma image_layer_trace (i : nat) (page : Page) (blocks : list Block)
  (images : list Z) :
  trace (image_layer i page blocks images)
  = flat_map (image_block_trace i page images) blocks.
Proof.
  pose proof (image_layer_returns i page blocks images) as R.
  unfold image_layer in *. rewrite (for_each_trace _ _ R).
  apply flat_map_ext. intro b. unfold image_block_trace.
  destruct (type_is b 1), (bbox b); try reflexivity.
  rewrite trace_mbind. reflexivity.
Qed.

Lemma rewrite_page_trace (i : nat) (page : Page) :
  trace (rewrite_page i page)
  = DrawRect i (page_rect page) (Some white) (Some white) 1 true
    :: trace (image_layer i page (text_dict_blocks page) (get_images page))
    ++ trace (text_layer i (text_dict_blocks page)).
Proof.
  rewrite rewrite_page_unfold, trace_mbind, image_layer_returns. reflexivity.
Qed.

Lemma rewrite_pages_trace (k : nat) (p : Page) (rest : list Page) :
  trace (rewrite_pages k (p :: rest))
  = trace (rewrite_page k p)
    ++ match outcome (text_layer k (text_dict_blocks p)) with
       | Ok _ => trace (rewrite_pages (S k) rest)
       | Raise _ => []
       end.
Proof.
  cbn [rewrite_pages]. rewrite trace_mbind, rewrite_page_outcome. reflexivity.
Qed.

(** C10: a failure on one image is local to that image.  In the extractor an
    image whose rectangle does not resolve contributes nothing: the result is
    the result for the images before it followed by the result for the images
    after it, and every other image of the page that resolves and passes the
    two filters is in the result.  In the page rewriter a failing insertion,
    once reached, is printed and the loop goes on with the next image; the
    image layer never raises and does, for every image block in turn, the
    border and the insertion attempts; the page goes on with its text layer
    after the image layer and ends as the text layer ends, the document goes
    on with the next page unless the text layer raised, and so the outcome of
    the whole conversion is the same for documents that differ only in their
    images. *)
Theorem image_failures_are_local :
  (forall (page : Page) (before : list Z) (x : Z) (after : list Z) (e : exn),
     get_image_bbox page x = Raise e ->
     extract_images_with_bboxes (with_images page (before ++ x :: after))
     = extract_images_with_bboxes (with_images page before)
       ++ extract_images_with_bboxes (with_images page after)
     /\ forall (y : Z) (b : Rect),
          In y (before ++ after) ->
          get_image_bbox page y = Ok b ->
          10 <= width b -> 10 <= height b ->
          ~ background b (page_rect page) ->
          In (mkImageRef y b)
             (extract_images_with_bboxes
                (with_images page (before ++ x :: after))))
  /\ (forall (i : nat) (page : Page) (r : Rect) (before : list Z) (x : Z)
        (after : list Z) (msg : string),
        (forall y, In y before -> insert_image_error page r y <> None) ->
        insert_image_error page r x = Some msg ->
        trace (insert_first_image i page r (before ++ x :: after))
        = trace (insert_first_image i page r before)
          ++ Printed ("Error inserting image: " ++ msg)
          :: trace (insert_first_image i page r after))
  /\ (forall (i : nat) (page : Page) (blocks : list Block) (images : list Z),
        outcome (image_layer i page blocks images) = Ok tt
        /\ trace (image_layer i page blocks images)
           = flat_map (image_block_trace i page images) blocks)
  /\ (forall (i : nat) (page : Page),
        outcome (rewrite_page i page)
        = outcome (text_layer i (text_dict_blocks page))
        /\ trace (rewrite_page i page)
           = DrawRect i (page_rect page) (Some white) (Some white) 1 true
             :: trace (image_layer i page (text_dict_blocks page)
                                   (get_images page))
             ++ trace (text_layer i (text_dict_blocks page)))
  /\ (forall (k : nat) (p : Page) (rest : list Page),
        trace (rewrite_pages k (p :: rest))
        = trace (rewrite_page k p)
          ++ match outcome (text_layer k (text_dict_blocks p)) with
             | Ok _ => trace (rewrite_pages (S k) rest)
             | Raise _ => []
             end)
  /\ (forall (doc doc' : Doc) (path : string) (g t : Q),
        Forall2 same_text (pages doc) (pages doc') ->
        save_error doc = save_error doc' ->
        outcome (process_pdf (fun _ => Ok doc) path g t)
        = outcome (process_pdf (fun _ => Ok doc') path g t)).
Proof.
  repeat apply conj.
  - intros page before x after e Hx. split.
    + exact (extract_images_without_unresolved page before x after e Hx).
    + intros y b. apply extract_images_keeps_the_others.
  - exact insert_first_image_skips_failures.
  - intros i page blocks images.
    split; [apply image_layer_returns | apply image_layer_trace].
  - intros i page.
    split; [apply rewrite_page_outcome | apply rewrite_page_trace].
  - exact rewrite_pages_trace.
  - intros doc doc' path g t Hsame Hsave.
    unfold process_pdf. rewrite !outcome_mbind. cbn [outcome lift snd rbind].
    rewrite !outcome_mbind, (rewrite_pages_outcome _ _ Hsame 0%nat).
    unfold save_outcome. rewrite Hsave. reflexivity.
Qed.

Lemma image_failures_are_local_witness :
  (extract_images_with_bboxes (with_images flaky_page ([3%Z] ++ 4%Z :: [5%Z]))
   = extract_images_with_bboxes (with_images flaky_page [3%Z])
     ++ extract_images_with_bboxes (with_images flaky_page [5%Z])
   /\ In (mkImageRef 5 (mkRect 200 325 400 475))
         (extract_images_with_bboxes
            (with_images flaky_page ([3%Z] ++ 4%Z :: [5%Z]))))
  /\ trace (insert_first_image 0 flaky_page (mkRect 200 325 400 475)
              ([] ++ 3%Z :: [4%Z; 5%Z]))
     = trace (insert_first_image 0 flaky_page (mkRect 200 325 400 475) [])
       ++ Printed ("Error inserting image: " ++ "bad pixmap")
       :: trace (insert_first_image 0 flaky_page (mkRect 200 325 400 475)
                   [4%Z; 5%Z])
  /\ outcome (process_pdf (fun _ => Ok (mkDoc [flaky_page] (fun _ => None)))
                          "in.pdf" 20 30)
     = outcome (process_pdf
                  (fun _ => Ok (mkDoc [with_images flaky_page []]
                                      (fun _ => None)))
                  "in.pdf" 20 30).
Proof.
  split; [|split].
  - destruct (proj1 image_failures_are_local flaky_page [3%Z] 4%Z [5%Z]
                    (OtherError "bad xref") eq_refl) as (E & K).
    split; [exact E|].
    apply (K 5%Z (mkRect 200 325 400 475)).
    + right. left. reflexivity.
    + reflexivity.
    + cbn. lra.
    + cbn. lra.
    + vm_compute. intros [(H & _)|[(H & _)|(H & _)]]; discriminate H.
  - apply (proj1 (proj2 image_failures_are_local) 0%nat flaky_page
                 (mkRect 200 325 400 475) [] 3%Z [4%Z; 5%Z] "bad pixmap"%string).
    + intros y [].
    + reflexivity.
  - apply (proj2 (proj2 (proj2 (proj2 (proj2 image_failures_are_local))))
                 (mkDoc [flaky_page] (fun _ => None))
                 (mkDoc [with_images flaky_page []] (fun _ => None))
                 "in.pdf"%string 20 30).
    + constructor; [reflexivity | constructor].
    + reflexivity.
Defined.

(** ** The extension of the derived name *)

Open Scope string_scope.

Lemma rfind_from_app (c : ascii) (a b : string) :
  forall i last,
    rfind_from c (a ++ b) i last
    = rfind_from c b (i + Z.of_nat (String.length a))%Z (rfind_from c a i last).
Proof.
  induction a as [|x a IH]; intros i last; cbn [append rfind_from String.length].
  - f_equal. lia.
  - rewrite IH. f_equal. lia.
Qed.

Lemma rfind_from_shift (c : ascii) (s : string) :
  forall i last,
    rfind_from c s i last
    = if (rfind c s <? 0)%Z then last else (i + rfind c s)%Z.
Proof.
  unfold rfind.
  induction s as [|x s IH]; intros i last; cbn [rfind_from]; [reflexivity|].
  rewrite (IH (i + 1)%Z), (IH (0 + 1)%Z).
  destruct (rfind_from c s 0 (-1) <? 0)%Z eqn:E.
  - destruct (Ascii.eqb x c); cbn; [f_equal; lia | reflexivity].
  - apply Z.ltb_ge in E.
    destruct (0 + 1 + rfind_from c s 0 (-1) <? 0)%Z eqn:E'; [|lia].
    apply Z.ltb_lt in E'. lia.
Qed.

Lemma rfind_bounds (c : ascii) (s : string) :
  (-1 <= rfind c s < Z.of_nat (String.length s))%Z.
Proof.
  induction s as [|x s IH]; [cbn; lia|].
  unfold rfind in *. cbn [rfind_from String.length].
  rewrite rfind_from_shift. unfold rfind.
  destruct (rfind_from c s 0 (-1) <? 0)%Z eqn:E.
  - destruct (Ascii.eqb x c); lia.
  - apply Z.ltb_ge in E. lia.
Qed.

Lemma get_app_left (a b : string) :
  forall j, (j < String.length a)%nat -> String.get j (a ++ b) = String.get j a.
Proof.
  induction a as [|x a IH]; intros j Hj; cbn in *; [lia|].
  destruct j; [reflexivity|]. apply IH. lia.
Qed.

Lemma has_non_dot_prefix (pre rest : string) (n : nat) :
  forall a, (a + n <= String.length pre)%nat ->
            has_non_dot (pre ++ rest) a n = has_non_dot pre a n.
Proof.
  induction n as [|n IH]; intros a Ha; cbn [has_non_dot]; [reflexivity|].
  rewrite get_app_left by lia.
  destruct (String.get a pre) as [ch|]; [|reflexivity].
  destruct (Ascii.eqb ch "."%char); [|reflexivity].
  apply IH. lia.
Qed.

Lemma has_non_dot_more (p : string) (n k : nat) :
  forall a, has_non_dot p a n = true -> has_non_dot p a (n + k) = true.
Proof.
  induction n as [|n IH]; intros a H; cbn [has_non_dot Nat.add] in *;
    [discriminate|].
  destruct (String.get a p) as [ch|]; [|reflexivity].
  destruct (Ascii.eqb ch "."%char); [|reflexivity].
  now apply IH.
Qed.

Lemma substring_prefix_length (s : string) :
  forall d, (d <= String.length s)%nat -> String.length (substring 0 d s) = d.
Proof.
  induction s as [|x s IH]; intros d Hd; cbn in Hd.
  - assert (d = 0%nat) as -> by lia. reflexivity.
  - destruct d; [reflexivity|]. cbn. rewrite IH; [reflexivity | lia].
Qed.

Lemma substring_app_left (a b : string) :
  substring 0 (String.length a) (a ++ b) = a.
Proof.
  induction a as [|x a IH]; cbn; [now destruct b | now rewrite IH].
Qed.

Lemma substring_app_right (a b : string) :
  substring (String.length a) (String.length (a ++ b) - String.length a) (a ++ b)
  = b.
Proof.
  induction a as [|x a IH]; cbn [append String.length].
  - rewrite Nat.sub_0_r. apply substring_whole.
  - cbn [substring]. exact IH.
Qed.

Lemma string_app_assoc (a b c : string) : (a ++ b) ++ c = a ++ (b ++ c).
Proof.
  induction a as [|x a IH]; cbn; [reflexivity | now rewrite IH].
Qed.

Lemma string_app_empty (a : string) : a ++ "" = a.
Proof.
  induction a as [|x a IH]; cbn; [reflexivity | now rewrite IH].
Qed.

Close Scope string_scope.

Open Scope string_scope.

Lemma rfind_from_marker (c : ascii) (i last : Z) :
  c = "."%char \/ c = "/"%char ->
  rfind_from c "-Accessible-Copy" i last = last.
Proof. intros [-> | ->]; reflexivity. Qed.

Lemma rfind_app (c : ascii) (pre ext : string) :
  rfind c (pre ++ ext)
  = (if (rfind c ext <? 0)%Z then rfind c pre
     else Z.of_nat (String.length pre) + rfind c ext)%Z.
Proof.
  unfold rfind at 1. rewrite rfind_from_app, rfind_from_shift.
  fold (rfind c pre). destruct (rfind c ext <? 0)%Z; [reflexivity | lia].
Qed.

Lemma rfind_app_marker (c : ascii) (pre ext : string) :
  c = "."%char \/ c = "/"%char ->
  rfind c (pre ++ ext)
  = (if (rfind c ext <? 0)%Z then rfind c pre
     else Z.of_nat (String.length pre) + rfind c ext)%Z
  /\ rfind c (pre ++ "-Accessible-Copy" ++ ext)
     = (if (rfind c ext <? 0)%Z then rfind c pre
        else Z.of_nat (String.length pre) + 16 + rfind c ext)%Z.
Proof.
  intro Hc. split; [apply rfind_app|].
  rewrite <- string_app_assoc, rfind_app, rfind_app.
  assert (M : rfind c "-Accessible-Copy" = (-1)%Z)
    by (destruct Hc as [-> | ->]; reflexivity).
  rewrite M, string_length_app. cbn [String.length Z.ltb Z.compare].
  destruct (rfind c ext <? 0)%Z; [reflexivity | lia].
Qed.

Lemma splitext_app_marker_ext (pre ext : string) :
  rfind "."%char (pre ++ ext) = Z.of_nat (String.length pre) ->
  (rfind "/"%char (pre ++ ext) < Z.of_nat (String.length pre))%Z ->
  has_non_dot (pre ++ ext)
    (Z.to_nat (rfind "/"%char (pre ++ ext) + 1))
    (Z.to_nat (Z.of_nat (String.length pre) - (rfind "/"%char (pre ++ ext) + 1)))
  = true ->
  splitext (pre ++ "-Accessible-Copy" ++ ext) = (pre ++ "-Accessible-Copy", ext).
Proof.
  intros Hdot Hsep Hnd.
  destruct (rfind_app_marker "."%char pre ext (or_introl eq_refl)) as (D & D').
  destruct (rfind_app_marker "/"%char pre ext (or_intror eq_refl)) as (S & S').
  pose proof (rfind_bounds "."%char pre) as Bd.
  pose proof (rfind_bounds "/"%char pre) as Bs.
  pose proof (rfind_bounds "/"%char ext) as Bse.
  rewrite D in Hdot. rewrite S in Hsep, Hnd.
  destruct (rfind "."%char ext <? 0)%Z eqn:Ed; [lia|].
  destruct (rfind "/"%char ext <? 0)%Z eqn:Es;
    [|apply Z.ltb_ge in Es; lia].
  assert (Re : rfind "."%char ext = 0%Z) by lia.
  rewrite Re in D'.
  unfold splitext. rewrite D', S'.
  assert (Hlt : (rfind "/"%char pre
                 <? Z.of_nat (String.length pre) + 16 + 0)%Z = true)
    by (apply Z.ltb_lt; lia).
  rewrite Hlt. cbn [andb].
  replace (Z.to_nat (Z.of_nat (String.length pre) + 16 + 0
                     - (rfind "/"%char pre + 1)))
    with (Z.to_nat (Z.of_nat (String.length pre) - (rfind "/"%char pre + 1))
          + 16)%nat by lia.
  rewrite has_non_dot_more.
  - replace (Z.to_nat (Z.of_nat (String.length pre) + 16 + 0))
      with (String.length (pre ++ "-Accessible-Copy"))
      by (rewrite string_length_app; cbn [String.length]; lia).
    rewrite <- string_app_assoc.
    now rewrite substring_app_left, substring_app_right.
  - rewrite has_non_dot_prefix by lia.
    rewrite has_non_dot_prefix in Hnd by lia. exact Hnd.
Qed.

Lemma splitext_app_marker_no_ext (p : string) :
  (rfind "/"%char p <? rfind "."%char p)%Z
  && has_non_dot p (Z.to_nat (rfind "/"%char p + 1))
       (Z.to_nat (rfind "."%char p - (rfind "/"%char p + 1)))
  = false ->
  splitext (p ++ "-Accessible-Copy") = (p ++ "-Accessible-Copy", "").
Proof.
  intro H. unfold splitext.
  assert (E : forall c, c = "."%char \/ c = "/"%char ->
                        rfind c (p ++ "-Accessible-Copy") = rfind c p).
  { intros c Hc. unfold rfind. rewrite rfind_from_app.
    apply (rfind_from_marker c _ _ Hc). }
  rewrite (E "."%char (or_introl eq_refl)), (E "/"%char (or_intror eq_refl)).
  pose proof (rfind_bounds "."%char p) as Bd.
  pose proof (rfind_bounds "/"%char p) as Bs.
  destruct (rfind "/"%char p <? rfind "."%char p)%Z eqn:Elt; [|reflexivity].
  apply Z.ltb_lt in Elt. cbn [andb] in *.
  rewrite has_non_dot_prefix by lia. now rewrite H.
Qed.

(** X25: splitting the derived name gives back the base with the marker and
    the extension of the input: the derived name has the same extension (and
    so is dispatched like its input), and a path without an extension gets a
    name without one. *)
Theorem splitext_create_output_filename (p : string) :
  splitext (create_output_filename p)
  = (fst (splitext p) ++ "-Accessible-Copy", snd (splitext p)).
Proof.
  unfold create_output_filename.
  pose proof (rfind_bounds "."%char p) as Bd.
  pose proof (rfind_bounds "/"%char p) as Bs.
  destruct ((rfind "/"%char p <? rfind "."%char p)%Z
            && has_non_dot p (Z.to_nat (rfind "/"%char p + 1))
                 (Z.to_nat (rfind "."%char p - (rfind "/"%char p + 1))))
    eqn:C.
  - assert (E : splitext p
                = (substring 0 (Z.to_nat (rfind "."%char p)) p,
                   substring (Z.to_nat (rfind "."%char p))
                             (String.length p - Z.to_nat (rfind "."%char p)) p))
      by (unfold splitext; now rewrite C).
    rewrite E. cbn [fst snd]. clear E.
    apply andb_true_iff in C. destruct C as (Clt & Cnd).
    apply Z.ltb_lt in Clt.
    set (d := Z.to_nat (rfind "."%char p)) in *.
    pose proof (substring_rejoin d p) as J.
    assert (L : String.length (substring 0 d p) = d)
      by (apply substring_prefix_length; subst d; lia).
    set (pre := substring 0 d p) in *.
    set (ext := substring d (String.length p - d) p) in *.
    apply splitext_app_marker_ext; rewrite J, L; subst d.
    + lia.
    + lia.
    + rewrite Z2Nat.id by lia. exact Cnd.
  - assert (E : splitext p = (p, "")) by (unfold splitext; now rewrite C).
    rewrite E. cbn [fst snd].
    rewrite string_app_empty. now apply splitext_app_marker_no_ext.
Qed.

Close Scope string_scope.

(** ** The path process_pdf saves to *)

Open Scope string_scope.

Lemma replace_go_absent (old new s : string) :
  occurs old s = false -> replace_go old new 0 s = s.
Proof.
  induction s as [|c s IH]; [reflexivity|].
  cbn [occurs replace_go]. intro H.
  apply orb_false_iff in H. destruct H as (Hp & Ho).
  rewrite Hp, (IH Ho). reflexivity.
Qed.

(** X26: when the characters ".pdf" do not occur in the path as written (an
    upper-case extension, for one), the path process_pdf computes for its
    output is the input path, so whatever it saves, it saves onto its
    input. *)
Theorem process_pdf_saves_onto_input (fo : string -> result Doc)
  (path : string) (g t : Q) (saved : string) :
  occurs ".pdf" path = false ->
  In saved (saved_paths (trace (process_pdf fo path g t))) ->
  saved = path.
Proof.
  intros Hocc Hin.
  assert (E : pdf_output_path path = path)
    by (unfold pdf_output_path, replace; now apply replace_go_absent).
  pose proof (process_pdf_one_result fo path g t) as H.
  destruct (outcome (process_pdf fo path g t));
    [destruct H as (Hs & _) | destruct H as ([Hs|Hs] & _)];
    rewrite Hs in Hin; try (destruct Hin as [<-|[]]; exact E).
  destruct Hin.
Qed.

Lemma process_pdf_saves_onto_input_witness :
  "REPORT.PDF" = "REPORT.PDF".
Proof.
  apply (process_pdf_saves_onto_input
           (fun _ => Ok (mkDoc [] (fun _ => None))) "REPORT.PDF"
           20 30 "REPORT.PDF").
  - reflexivity.
  - left. reflexivity.
Defined.

Lemma prefix_pdf_straddle (c : ascii) (s : string) :
  prefix ".pdf" (String c s) = false ->
  prefix ".pdf" (String c (s ++ ".pdf")) = false.
Proof.
  destruct s as [|c2 [|c3 [|c4 s]]]; cbn [prefix append]; intro H;
    repeat match goal with
           | K : context [ascii_dec ?a ?b] |- _ =>
             destruct (ascii_dec a b); try subst; try congruence
           | |- context [ascii_dec ?a ?b] =>
             destruct (ascii_dec a b); try subst; try congruence
           end;
    try congruence.
  destruct s; discriminate H.
Qed.

(** X27: for a path that ends in ".pdf" and has no ".pdf" before that, the
    path process_pdf computes is the one with the marker before the
    extension. *)
Theorem pdf_output_path_of_plain_name (base : string) :
  occurs ".pdf" base = false ->
  pdf_output_path (base ++ ".pdf") = base ++ "-Accessible-Copy.pdf".
Proof.
  unfold pdf_output_path, replace.
  induction base as [|c base IH]; [reflexivity|].
  cbn [occurs]. intro H. apply orb_false_iff in H. destruct H as (Hp & Ho).
  cbn [append replace_go].
  rewrite (prefix_pdf_straddle c base Hp), (IH Ho). reflexivity.
Qed.

Lemma pdf_output_path_of_plain_name_witness :
  pdf_output_path ("docs/report" ++ ".pdf")
  = "docs/report" ++ "-Accessible-Copy.pdf".
Proof.
  apply (pdf_output_path_of_plain_name "docs/report"). reflexivity.
Defined.

Close Scope string_scope.

(** ** process_docx and process_pptx: the restyling *)

Lemma flat_map_map_commute {A B C D} (g : A -> list C) (h : A -> B)
  (g' : B -> list D) (f : C -> D) (l : list A) :
  (forall a, g' (h a) = map f (g a)) ->
  flat_map g' (map h l) = map f (flat_map g l).
Proof.
  intro H. induction l as [|a t IH]; [reflexivity|].
  cbn. now rewrite map_app, H, IH.
Qed.

Lemma Forall2_map_right {A B} (R : A -> B -> Prop) (f : A -> B) (l : list A) :
  (forall a, R a (f a)) -> Forall2 R l (map f l).
Proof.
  intro H. induction l as [|a t IH]; cbn; constructor; auto.
Qed.

Lemma docx_restyle_visits_runs (doc : Document) :
  document_runs (docx_restyle doc) = map docx_restyle_run (document_runs doc).
Proof.
  unfold document_runs, docx_restyle; cbn [paragraphs tables].
  rewrite map_app. f_equal.
  - now apply flat_map_map_commute.
  - apply flat_map_map_commute. intro table.
    unfold table_runs, docx_restyle_table; cbn [rows].
    apply flat_map_map_commute. intro row. cbn [cells].
    apply flat_map_map_commute. intro cell. cbn [cell_paragraphs].
    now apply flat_map_map_commute.
Qed.

Lemma docx_restyle_run_idempotent (run : Run) :
  docx_restyle_run (docx_restyle_run run) = docx_restyle_run run.
Proof. reflexivity. Qed.

Lemma map_idempotent {A} (f : A -> A) (l : list A) :
  (forall a, f (f a) = f a) -> map f (map f l) = map f l.
Proof.
  intro H. rewrite map_map. apply map_ext. exact H.
Qed.

(** X28: process_docx visits every run of the body paragraphs and of the
    paragraphs in table cells, in order, and leaves each with the same text,
    size and weight, black colour, the Arial font and no highlight; doing it
    a second time changes nothing. *)
Theorem docx_restyle_runs (doc : Document) :
  Forall2 (restyled false) (document_runs doc) (document_runs (docx_restyle doc))
  /\ docx_restyle (docx_restyle doc) = docx_restyle doc.
Proof.
  split.
  - rewrite docx_restyle_visits_runs. apply Forall2_map_right.
    intro run. unfold restyled. cbn. repeat split.
  - unfold docx_restyle; cbn [paragraphs tables]. f_equal.
    + apply map_idempotent. intro para.
      unfold docx_restyle_paragraph; cbn [runs]. f_equal.
      apply map_idempotent, docx_restyle_run_idempotent.
    + apply map_idempotent. intro table.
      unfold docx_restyle_table; cbn [rows]. f_equal.
      apply map_idempotent. intro row. cbn [cells]. f_equal.
      apply map_idempotent. intro cell. cbn [cell_paragraphs]. f_equal.
      apply map_idempotent. intro para.
      unfold docx_restyle_paragraph; cbn [runs]. f_equal.
      apply map_idempotent, docx_restyle_run_idempotent.
Qed.

Lemma pptx_restyle_visits_runs (prs : Presentation) :
  presentation_runs (pptx_restyle prs)
  = map pptx_restyle_run (presentation_runs prs).
Proof.
  unfold presentation_runs, pptx_restyle; cbn [slides].
  apply flat_map_map_commute. intro slide. cbn [shapes].
  apply flat_map_map_commute. intro shape.
  unfold shape_runs, pptx_restyle_shape.
  destruct (text_frame shape) as [paras|] eqn:E; cbn [text_frame get_or].
  - now apply flat_map_map_commute.
  - rewrite E. reflexivity.
Qed.

(** X29: process_pptx leaves every slide with a solid white background,
    leaves every run of every text frame with the same text, size, weight and
    highlight, black colour and the Arial font, keeps the number and order of
    slides and shapes, and does not touch a shape without a text frame. *)
Theorem pptx_restyle_result (prs : Presentation) :
  Forall2 (restyled true) (presentation_runs prs)
          (presentation_runs (pptx_restyle prs))
  /\ Forall2 (fun slide slide' =>
                fill_type (background_fill slide') = Some SOLID
                /\ fore_color_rgb (background_fill slide') = Some pptx_white
                /\ Forall2 (fun shape shape' =>
                              text_frame shape = None -> shape' = shape)
                           (shapes slide) (shapes slide'))
             (slides prs) (slides (pptx_restyle prs)).
Proof.
  split.
  - rewrite pptx_restyle_visits_runs. apply Forall2_map_right.
    intro run. unfold restyled. cbn. repeat split.
  - unfold pptx_restyle; cbn [slides]. apply Forall2_map_right.
    intro slide. cbn [background_fill shapes fill_type fore_color_rgb solid_white].
    repeat split. apply Forall2_map_right.
    intros shape E. unfold pptx_restyle_shape. now rewrite E.
Qed.

(** X30: after safe_set_shape_fill_white a fill is never patterned,
    gradient, picture or textured; if it is solid, its colour is white unless
    the fill was left as it was because it reported a transparency of 1 or
    more; and a fill without a type, a background fill and a group fill are
    left as they were. *)
Theorem safe_set_shape_fill_white_result (fill : Fill) :
  exists fill',
    safe_set_shape_fill_white (Some fill) = Some fill'
    /\ (fill_type fill' <> Some PATTERNED /\ fill_type fill' <> Some GRADIENT
        /\ fill_type fill' <> Some PICTURE /\ fill_type fill' <> Some TEXTURED)
    /\ (fill_type fill' = Some SOLID ->
        fore_color_rgb fill' = Some pptx_white
        \/ (fill' = fill
            /\ exists t, fore_color_transparency fill = Ok (Some t) /\ 1 <= t))
    /\ (fill_type fill = None \/ fill_type fill = Some BACKGROUND
        \/ fill_type fill = Some GROUP -> fill' = fill).
Proof.
  unfold safe_set_shape_fill_white.
  destruct fill as [[[]|] rgb tr]; cbn [fill_type fore_color_transparency];
    try (eexists; split; [reflexivity|]; cbn;
         repeat split; try discriminate; try (now left);
         try (intros [H|[H|H]]; discriminate H); fail).
  destruct tr as [[t|]|e];
    try (eexists; split; [reflexivity|]; cbn;
         repeat split; try discriminate; try (now left);
         try (intros [H|[H|H]]; discriminate H); fail).
  destruct (Qlt_bool t 1) eqn:E;
    eexists; (split; [reflexivity|]); cbn;
    repeat split; try discriminate; try (now left);
    try (intros [H|[H|H]]; discriminate H).
  intros _. right. split; [reflexivity|].
  exists t. split; [reflexivity|]. now apply Qlt_bool_false.
Qed.
